(** * Cyber Among Us: the session server (src/server.js)

    A shallow embedding of the socket handlers of [server.js] and of the
    helpers they call ([processVotes], [checkGameEnd], [endGame], ...), with
    the properties of the session state machine proved over it.

    Modelling conventions.
    - [gameState.players] is a JS [Map] keyed by [socket.id]; its iteration
      order is insertion order and every handler reads it through
      [Array.from(gameState.players.values())], so it is a list of player
      records in insertion order.  The only insertion is
      [players.set(socket.id, player)] with [player.id = socket.id], hence the
      key of an entry is the [id] field of its record.
    - Player records are JS objects that handlers mutate through references.
      The only reference that outlives a handler is the [players] array
      captured by the deferred lobby reset of [endGame]; the ghost field [oid]
      names the object so that this reset reaches exactly the captured
      objects.
    - [gameState.killCooldowns] is a [Map] that is only read by key: a [gmap].
    - [Date.now()] and [Math.random()] are inputs of the events.
    - The [votes] and [voters] objects of [processVotes] are plain objects
      written by key: the list of their own properties, in creation order.
      A vote target is a string sent by a client, so a key may name a member
      that a plain object inherits from [Object.prototype] (taken as the
      engine provides it); [bump] and [assign] follow the language on such
      keys, and [Object_entries] gives the order in which the scan enumerates
      the properties.
    - Every handler returns the new state and the list of messages it emits,
      in emission order. *)

From Stdlib Require Import ZArith List Lia Bool Permutation.
From stdpp Require Import base option list gmap strings.

(** ** Data model *)

Definition ident := string.

Inductive role_t := impostor | crewmate.

#[global] Instance role_t_eq_dec : EqDecision role_t.
Proof. solve_decision. Defined.

Record task := mkTask {
  task_id : string;
  task_name : string;
  task_duration : Z
}.

#[global] Instance task_eq_dec : EqDecision task.
Proof. solve_decision. Defined.

Definition CREWMATE_TASKS : list task :=
  [ mkTask "network" "Network Security Log" 120;
    mkTask "phishing" "Phishing Email Sort" 180;
    mkTask "firewall" "Firewall Construction" 150;
    mkTask "encryption" "Data Encryption" 100;
    mkTask "backup" "System Backup" 90 ].

(** One slot of [taskProgress]: [{ completed, data }]; [data] is opaque. *)
Record slot := mkSlot {
  completed : bool;
  data : option string
}.

Record task_progress := mkProgress {
  tasksCompleted : Z;
  task1 : slot;
  task2 : slot;
  task3 : slot
}.

Definition blank_slot : slot := mkSlot false None.

(** The object literal written by [join-lobby], [start-game] and the lobby
    reset of [endGame]. *)
Definition blank_progress : task_progress :=
  mkProgress 0 blank_slot blank_slot blank_slot.

Record player := mkPlayer {
  oid : nat;
  id : ident;
  name : string;
  role : option role_t;
  isAlive : bool;
  tasks : list task;
  sabotageCount : nat;
  color : string;
  taskProgress : task_progress;
  vote : option ident
}.

Definition set_role (r : option role_t) (p : player) : player :=
  mkPlayer (oid p) (id p) (name p) r (isAlive p) (tasks p) (sabotageCount p)
           (color p) (taskProgress p) (vote p).

Definition set_isAlive (b : bool) (p : player) : player :=
  mkPlayer (oid p) (id p) (name p) (role p) b (tasks p) (sabotageCount p)
           (color p) (taskProgress p) (vote p).

Definition set_sabotageCount (n : nat) (p : player) : player :=
  mkPlayer (oid p) (id p) (name p) (role p) (isAlive p) (tasks p) n
           (color p) (taskProgress p) (vote p).

Definition set_taskProgress (tp : task_progress) (p : player) : player :=
  mkPlayer (oid p) (id p) (name p) (role p) (isAlive p) (tasks p)
           (sabotageCount p) (color p) tp (vote p).

Definition set_vote (v : option ident) (p : player) : player :=
  mkPlayer (oid p) (id p) (name p) (role p) (isAlive p) (tasks p)
           (sabotageCount p) (color p) (taskProgress p) v.

Definition set_tasksCompleted (n : Z) (tp : task_progress) : task_progress :=
  mkProgress n (task1 tp) (task2 tp) (task3 tp).

(** The singleton [gameState].  [gameTimer] tells whether an interval is
    installed; [pendingLobbyResets] and [pendingMeetings] are the pending
    [setTimeout] callbacks of [endGame] and [startEmergencyMeeting];
    [nextObject] allocates object names. *)
Record game_state := mkState {
  players : list player;
  killCooldowns : gmap ident Z;
  timeRemaining : Z;
  gameTimer : bool;
  pendingLobbyResets : list (list nat);
  pendingMeetings : nat;
  nextObject : nat
}.

Definition with_players (ps : list player) (s : game_state) : game_state :=
  mkState ps (killCooldowns s) (timeRemaining s) (gameTimer s)
          (pendingLobbyResets s) (pendingMeetings s) (nextObject s).

Definition with_killCooldowns (kc : gmap ident Z) (s : game_state) : game_state :=
  mkState (players s) kc (timeRemaining s) (gameTimer s)
          (pendingLobbyResets s) (pendingMeetings s) (nextObject s).

Definition with_timeRemaining (t : Z) (s : game_state) : game_state :=
  mkState (players s) (killCooldowns s) t (gameTimer s)
          (pendingLobbyResets s) (pendingMeetings s) (nextObject s).

Definition with_gameTimer (b : bool) (s : game_state) : game_state :=
  mkState (players s) (killCooldowns s) (timeRemaining s) b
          (pendingLobbyResets s) (pendingMeetings s) (nextObject s).

Definition with_pendingLobbyResets (l : list (list nat)) (s : game_state) : game_state :=
  mkState (players s) (killCooldowns s) (timeRemaining s) (gameTimer s)
          l (pendingMeetings s) (nextObject s).

Definition with_pendingMeetings (n : nat) (s : game_state) : game_state :=
  mkState (players s) (killCooldowns s) (timeRemaining s) (gameTimer s)
          (pendingLobbyResets s) n (nextObject s).

Definition with_nextObject (n : nat) (s : game_state) : game_state :=
  mkState (players s) (killCooldowns s) (timeRemaining s) (gameTimer s)
          (pendingLobbyResets s) (pendingMeetings s) n.

Definition initial_state : game_state :=
  mkState [] ∅ 300 false [] 0 0.

Definition meetingDuration : Z := 90.

(** ** The registry: [Map] operations on the insertion-ordered list *)

(** [gameState.players.get(k)] *)
Fixpoint reg_get (k : ident) (ps : list player) : option player :=
  match ps with
  | [] => None
  | p :: rest => if decide (id p = k) then Some p else reg_get k rest
  end.

(** [gameState.players.set(p.id, p)]: an existing key keeps its position. *)
Fixpoint reg_set (p : player) (ps : list player) : list player :=
  match ps with
  | [] => [p]
  | q :: rest =>
      if decide (id q = id p) then p :: rest else q :: reg_set p rest
  end.

(** [gameState.players.delete(k)] *)
Fixpoint reg_delete (k : ident) (ps : list player) : list player :=
  match ps with
  | [] => []
  | q :: rest =>
      if decide (id q = k) then rest else q :: reg_delete k rest
  end.

(** Mutation of the object stored under [k], through the reference that
    [get] returned. *)
Fixpoint reg_update (k : ident) (f : player → player) (ps : list player)
  : list player :=
  match ps with
  | [] => []
  | q :: rest =>
      if decide (id q = k) then f q :: rest else q :: reg_update k f rest
  end.

(** ** Outbound messages *)

Inductive recipient :=
  | ToRoom                      (* io.to('main').emit *)
  | ToOthers (sender : ident)   (* socket.to('main').emit *)
  | ToSocket (sid : ident).     (* socket.emit / playerSocket.emit *)

Inductive winner_t := crewmates_win | impostor_win.

(** Projections of a player sent in rosters. *)
Record roster_entry := mkRoster {
  r_id : ident;
  r_name : string;
  r_color : string;
  r_role : option role_t;
  r_isAlive : bool;
  r_tasksCompleted : Z
}.

(** What a property of the [votes] object of [processVotes] holds: a count,
    or the text that [+ 1] makes of a member inherited from
    [Object.prototype], which is the text of that member followed by [ones]
    characters "1". *)
Inductive tally_value :=
  | tally_count (n : nat)
  | tally_text (ones : nat).

#[global] Instance tally_value_eq_dec : EqDecision tally_value.
Proof. solve_decision. Defined.

Inductive message :=
  | player_list_update (ps : list player)
  | game_started (r : option role_t) (ts : list task) (roster : list roster_entry)
  | restore_task_progress (tp : task_progress)
  | crewmate_activity (pid : ident) (pname task progress screenData : string)
  | task_completed_update (pid : ident) (pname : string) (n : Z) (totalTasks : Z)
  | sabotage_attempt (impostorName targetName : string) (count : nat)
                     (success : bool) (sabotageType : string)
  | kill_cooldown (remaining : Z)
  | player_killed (pid : ident) (pname killer : string)
  | kill_cooldown_active (duration : Z)
  | sabotage_triggered (sabotageType impostorName : string) (target : ident)
  | body_reported (reporter location : string)
  | emergency_meeting_started (roster : list roster_entry) (duration : Z)
  | vote_submitted (pid : ident) (pname : string)
  | player_ejected (pid : ident) (pname : string) (r : option role_t)
                   (votes : list (ident * tally_value))
                   (voters : list (ident * ident))
  | no_one_ejected (tie : bool) (votes : list (ident * tally_value))
  | game_timer_update (remaining minutes seconds : Z)
  | game_ended (winners : winner_t) (reason : string) (roster : list roster_entry)
  | return_to_lobby
  | chat_message (pname message color : string) (isDead : bool) (r : option role_t)
  | game_state_update (roster : list roster_entry) (remaining : Z) (gameActive : bool)
  | player_disconnected (pid : ident) (pname : string).

Definition emit := (recipient * message)%type.

Definition roster_of (p : player) : roster_entry :=
  mkRoster (id p) (name p) (color p) (role p) (isAlive p)
           (tasksCompleted (taskProgress p)).

(** ** Helper functions of the server *)

Definition colors : list string :=
  [ "#ff6b6b"; "#4ecdc4"; "#45b7d1"; "#96ceb4";
    "#feca57"; "#ff9ff3"; "#54a0ff"; "#5f27cd" ].

(** [getRandomColor]: [k] is [Math.floor(Math.random() * colors.length)]. *)
Definition getRandomColor (k : nat) : string := nth k colors "".

(** [getRandomTasks(count)]: [shuffled] is the copy of the catalog after
    [sort] with the random comparator, some rearrangement of the catalog. *)
Definition getRandomTasks (shuffled : list task) (count : nat) : list task :=
  take count shuffled.

(** [broadcastPlayerList] *)
Definition broadcastPlayerList (s : game_state) : list emit :=
  [(ToRoom, player_list_update (players s))].

Definition is_role (r : role_t) (p : player) : bool :=
  bool_decide (role p = Some r).

(** [vote !== undefined && vote !== null] *)
Definition has_voted (p : player) : bool :=
  match vote p with Some _ => true | None => false end.

(** [endGame(winners, reason)]: stops the timer, broadcasts the summary and
    defers the lobby reset of the player objects captured in [players]. *)
Definition endGame (winners : winner_t) (reason : string) (s : game_state)
  : game_state * list emit :=
  let s1 := with_gameTimer false s in
  let ps := players s1 in
  (with_pendingLobbyResets (pendingLobbyResets s1 ++ [map oid ps]) s1,
   [(ToRoom, game_ended winners reason (map roster_of ps))]).

(** The [winner]/[reason] pair computed by [checkGameEnd]. *)
Definition decide_winner (s : game_state) : option (winner_t * string) :=
  let ps := players s in
  let aliveCrewmates := List.filter (λ p, isAlive p && is_role crewmate p) ps in
  let aliveImpostors := List.filter (λ p, isAlive p && is_role impostor p) ps in
  let winner :=
    if length aliveImpostors =? 0 then
      Some (crewmates_win, "All impostors eliminated")
    else if length aliveCrewmates <=? length aliveImpostors then
      Some (impostor_win, "Impostors outnumber crewmates")
    else
      let crewmates := List.filter (is_role crewmate) ps in
      let allTasksCompleted :=
        forallb (λ c, (3 <=? tasksCompleted (taskProgress c))%Z) crewmates in
      if allTasksCompleted then Some (crewmates_win, "All tasks completed")
      else None in
  match winner with
  | Some w => Some w
  | None =>
      if (timeRemaining s <=? 0)%Z then Some (impostor_win, "Time ran out")
      else None
  end.

(** [checkGameEnd] *)
Definition checkGameEnd (s : game_state) : game_state * list emit :=
  match decide_winner s with
  | Some (winner, reason) => endGame winner reason s
  | None => (s, [])
  end.

(** The field assignments of the deferred callback of [endGame]. *)
Definition lobby_reset_player (p : player) : player :=
  mkPlayer (oid p) (id p) (name p) None true (tasks p) 0 (color p)
           blank_progress None.

(** The deferred callback of [endGame], fifteen seconds later: it resets the
    objects it captured, whether or not they are still registered. *)
Definition lobbyReset (s : game_state) : game_state * list emit :=
  match pendingLobbyResets s with
  | [] => (s, [])
  | captured :: rest =>
      let ps := map (λ p, if bool_decide (oid p ∈ captured)
                          then lobby_reset_player p else p) (players s) in
      (with_pendingLobbyResets rest (with_players ps s),
       [(ToRoom, return_to_lobby)])
  end.

(** [startGameTimer]; the interval callback is [timerTick] below. *)
Definition startGameTimer (s : game_state) : game_state :=
  with_gameTimer true (with_timeRemaining 300 s).

(** One run of the interval callback.  At zero the interval is cleared and
    [checkGameEnd] always finds a winner, so [endGame] also drops the handle. *)
Definition timerTick (s : game_state) : game_state * list emit :=
  let t := (timeRemaining s - 1)%Z in
  let s1 := with_timeRemaining t s in
  let out := [(ToRoom, game_timer_update t (t / 60)%Z (Z.rem t 60))] in
  if (t <=? 0)%Z then
    let '(s2, out2) := checkGameEnd (with_gameTimer false s1) in
    (s2, out ++ out2)
  else (s1, out).

(** ** Vote resolution *)

(** The names of the members that a plain object inherits from
    [Object.prototype]: [__proto__] is an accessor, the others are writable
    function-valued properties. *)
Definition Object_prototype_members : list string :=
  [ "constructor"; "__defineGetter__"; "__defineSetter__"; "hasOwnProperty";
    "__lookupGetter__"; "__lookupSetter__"; "isPrototypeOf";
    "propertyIsEnumerable"; "toString"; "valueOf"; "__proto__";
    "toLocaleString" ].

Definition inherited (k : ident) : bool :=
  bool_decide (k ∈ Object_prototype_members).

(** [v + 1] for a stored value [v], which is truthy: a count is incremented,
    a text gets one more "1". *)
Definition plus_one (v : tally_value) : tally_value :=
  match v with
  | tally_count n => tally_count (n + 1)
  | tally_text ones => tally_text (ones + 1)
  end.

(** [votes[k] = (votes[k] || 0) + 1] on the tally object.  An own property
    keeps its place and gets [+ 1].  Without an own property the read falls
    through to [Object.prototype]: for [__proto__] it yields the prototype
    object and the write goes to the accessor, which ignores a string, so the
    object is unchanged; for another inherited member it yields a function,
    and the write creates an own property holding a text; for any other key
    it yields [undefined] and the write creates an own property holding 1. *)
Fixpoint bump (k : ident) (votes : list (ident * tally_value))
  : list (ident * tally_value) :=
  match votes with
  | [] =>
      if decide (k = "__proto__") then []
      else if inherited k then [(k, tally_text 1)]
      else [(k, tally_count 1)]
  | (k', v) :: rest =>
      if decide (k' = k) then (k', plus_one v) :: rest
      else (k', v) :: bump k rest
  end.

(** [voters[k] = v]: an own property is overwritten; a new one is created,
    except under [__proto__], whose accessor ignores the string [v]. *)
Fixpoint assign (k v : ident) (voters : list (ident * ident))
  : list (ident * ident) :=
  match voters with
  | [] => if decide (k = "__proto__") then [] else [(k, v)]
  | (k', v') :: rest =>
      if decide (k' = k) then (k', v) :: rest else (k', v') :: assign k v rest
  end.

(** The first [forEach] of [processVotes]. *)
Definition tally_step
    (acc : list (ident * tally_value) * list (ident * ident)) (p : player)
  : list (ident * tally_value) * list (ident * ident) :=
  match vote p with
  | Some v => (bump v (fst acc), assign (id p) v (snd acc))
  | None => acc
  end.

Definition tally (ps : list player)
  : list (ident * tally_value) * list (ident * ident) :=
  fold_left tally_step ps ([], []).

(** The value of a decimal digit. *)
Definition digit (c : Ascii.ascii) : option N :=
  let n := Ascii.N_of_ascii c in
  if (48 <=? n)%N && (n <=? 57)%N then Some (n - 48)%N else None.

Fixpoint decimal (s : string) (acc : N) : option N :=
  match s with
  | EmptyString => Some acc
  | String c rest =>
      match digit c with
      | Some d => decimal rest (10 * acc + d)%N
      | None => None
      end
  end.

(** The array index that a property name denotes, if any: a decimal numeral
    without a leading zero (the numeral 0 apart) and below [2^32 - 1]. *)
Definition array_index (k : ident) : option N :=
  match k with
  | EmptyString => None
  | String c rest =>
      if (Ascii.N_of_ascii c =? 48)%N && negb (String.eqb rest "") then None
      else match decimal k 0 with
           | Some n => if (n <? 4294967295)%N then Some n else None
           | None => None
           end
  end.

Fixpoint insert_index {A} (i : N) (e : A) (sorted : list (N * A))
  : list (N * A) :=
  match sorted with
  | [] => [(i, e)]
  | (j, e') :: rest =>
      if (i <? j)%N then (i, e) :: sorted else (j, e') :: insert_index i e rest
  end.

Definition index_entries {A} (props : list (ident * A)) : list (N * (ident * A)) :=
  foldr (λ e acc, match array_index e.1 with
                  | Some i => insert_index i e acc
                  | None => acc
                  end) [] props.

(** [Object.entries]: the properties whose name is an array index come first,
    by ascending index, then the others in creation order. *)
Definition Object_entries {A} (props : list (ident * A)) : list (ident * A) :=
  map snd (index_entries props)
  ++ List.filter (λ e, bool_decide (array_index e.1 = None)) props.

(** The three locals of the scan over [Object.entries(votes)]. *)
Record scan_state := mkScan {
  maxVotes : nat;
  ejectedPlayerId : option ident;
  tie : bool
}.

(** The body of the scan.  On a text both comparisons are false: the text is
    not a number, so [>] compares with [NaN], and [===] with a number fails
    on the type. *)
Definition scan_step (st : scan_state) (entry : ident * tally_value)
  : scan_state :=
  let '(playerId, value) := entry in
  match value with
  | tally_count voteCount =>
      if maxVotes st <? voteCount then mkScan voteCount (Some playerId) false
      else if (voteCount =? maxVotes st) && (0 <? maxVotes st) then
        mkScan (maxVotes st) (ejectedPlayerId st) true
      else st
  | tally_text _ => st
  end.

Definition scan (votes : list (ident * tally_value)) : scan_state :=
  fold_left scan_step votes (mkScan 0 None false).

(** Truthiness of [ejectedPlayerId]: [null] and the empty string are falsy. *)
Definition truthy (k : option ident) : bool :=
  match k with
  | Some s => negb (String.eqb s "")
  | None => false
  end.

Definition clear_votes (ps : list player) : list player :=
  map (set_vote None) ps.

(** [processVotes] *)
Definition processVotes (s : game_state) : game_state * list emit :=
  let '(votes, voters) := tally (players s) in
  let st := scan (Object_entries votes) in
  let '(s1, out) :=
    if truthy (ejectedPlayerId st) && (0 <? maxVotes st) && negb (tie st) then
      match ejectedPlayerId st with
      | Some k =>
          match reg_get k (players s) with
          | Some ejectedPlayer =>
              let s1 := with_players
                          (reg_update k (set_isAlive false) (players s)) s in
              let '(s2, out2) := checkGameEnd s1 in
              (s2, (ToRoom, player_ejected (id ejectedPlayer) (name ejectedPlayer)
                              (role ejectedPlayer) votes voters) :: out2)
          | None => (s, [])
          end
      | None => (s, [])
      end
    else (s, [(ToRoom, no_one_ejected (tie st) votes)]) in
  (with_players (clear_votes (players s1)) s1, out).

(** [startEmergencyMeeting] *)
Definition startEmergencyMeeting (s : game_state) : game_state * list emit :=
  let alivePlayers := List.filter isAlive (players s) in
  let s1 := with_players (clear_votes (players s)) s in
  (with_pendingMeetings (S (pendingMeetings s1)) s1,
   [(ToRoom, emergency_meeting_started (map roster_of alivePlayers)
               meetingDuration)]).

(** The deferred callback of [startEmergencyMeeting]. *)
Definition meetingTimeout (s : game_state) : game_state * list emit :=
  let s1 := with_pendingMeetings (pred (pendingMeetings s)) s in
  if 0 <? length (players s1) then processVotes s1 else (s1, []).

(** ** Socket handlers *)

(** [join-lobby]: the record literal, [players.set], then the task draw. *)
Definition joinLobby (sid : ident) (playerName : string) (colorIndex : nat)
    (shuffled : list task) (s : game_state) : game_state * list emit :=
  let p := mkPlayer (nextObject s) sid playerName None true
                    (getRandomTasks shuffled 3) 0 (getRandomColor colorIndex)
                    blank_progress None in
  let s1 := with_nextObject (S (nextObject s))
              (with_players (reg_set p (players s)) s) in
  (s1, broadcastPlayerList s1).

(** The [while] loop of [start-game]; [draws] are the successive values of
    [Math.floor(Math.random() * players.length)]. *)
Fixpoint pick_impostors (impostorCount : nat) (draws : list nat)
    (impostorIndices : list nat) : list nat :=
  match draws with
  | [] => impostorIndices
  | randomIndex :: rest =>
      if length impostorIndices <? impostorCount then
        pick_impostors impostorCount rest
          (if bool_decide (randomIndex ∈ impostorIndices) then impostorIndices
           else impostorIndices ++ [randomIndex])
      else impostorIndices
  end.

(** The body of the first [players.forEach] of [start-game]. *)
Definition start_player (impostorIndices : list nat) (index : nat) (p : player)
  : player :=
  mkPlayer (oid p) (id p) (name p)
           (Some (if bool_decide (index ∈ impostorIndices) then impostor
                  else crewmate))
           true (tasks p) 0 (color p) blank_progress None.

(** The body of the second [players.forEach] of [start-game]; a registered
    player is connected, so its socket is found. *)
Definition notify_start (ps : list player) (p : player) : list emit :=
  (ToSocket (id p), game_started (role p) (tasks p) (map roster_of ps)) ::
  (if is_role crewmate p
   then [(ToSocket (id p), restore_task_progress (taskProgress p))]
   else []).

(** [start-game] *)
Definition startGame (draws : list nat) (s : game_state)
  : game_state * list emit :=
  let ps := players s in
  if 1 <=? length ps then
    let impostorCount := if 2 <=? length ps then 1 else 0 in
    let impostorIndices :=
      if 0 <? impostorCount then pick_impostors impostorCount draws [] else [] in
    let ps' := imap (start_player impostorIndices) ps in
    let s1 := startGameTimer (with_players ps' s) in
    (s1, flat_map (notify_start ps') ps')
  else (s, []).

(** [task-progress] *)
Definition taskProgressRelay (sid : ident) (task progress screenData : string)
    (s : game_state) : game_state * list emit :=
  match reg_get sid (players s) with
  | Some p =>
      if is_role crewmate p then
        (s, [(ToOthers sid,
              crewmate_activity sid (name p) task progress screenData)])
      else (s, [])
  | None => (s, [])
  end.

(** [save-task-progress] *)
Definition saveTaskProgress (sid : ident) (tp : task_progress) (s : game_state)
  : game_state * list emit :=
  match reg_get sid (players s) with
  | Some p =>
      if is_role crewmate p then
        let s1 := with_players
                    (reg_update sid (set_taskProgress tp) (players s)) s in
        if (3 <=? tasksCompleted tp)%Z then checkGameEnd s1 else (s1, [])
      else (s, [])
  | None => (s, [])
  end.

(** [task-completed] *)
Definition taskCompleted (sid : ident) (n : Z) (s : game_state)
  : game_state * list emit :=
  match reg_get sid (players s) with
  | Some p =>
      if is_role crewmate p then
        let s1 := with_players
                    (reg_update sid
                       (λ q, set_taskProgress
                               (set_tasksCompleted n (taskProgress q)) q)
                       (players s)) s in
        let '(s2, out2) := checkGameEnd s1 in
        (s2, (ToRoom, task_completed_update sid (name p) n 3) :: out2)
      else (s, [])
  | None => (s, [])
  end.

(** [30000 - (Date.now() - lastKillTime)], with
    [lastKillTime = killCooldowns.get(k) || 0]. *)
Definition cooldownRemaining (kc : gmap ident Z) (k : ident) (now : Z) : Z :=
  let lastKillTime := default 0%Z (kc !! k) in
  (30000 - (now - lastKillTime))%Z.

(** [Math.ceil(x / 1000)] on an integer [x]. *)
Definition ceil_seconds (x : Z) : Z := (- ((- x) / 1000))%Z.

(** [attempt-sabotage]; [now] and [now'] are the two readings of
    [Date.now()], at the cooldown check and at the kill. *)
Definition attemptSabotage (sid targetPlayerId : ident) (success : bool)
    (sabotageType : string) (now now' : Z) (s : game_state)
  : game_state * list emit :=
  match reg_get sid (players s), reg_get targetPlayerId (players s) with
  | Some imp, Some targetPlayer =>
      if is_role impostor imp && is_role crewmate targetPlayer then
        let remaining := cooldownRemaining (killCooldowns s) (id imp) now in
        if (0 <? remaining)%Z && (2 <=? sabotageCount targetPlayer) then
          (s, [(ToSocket sid, kill_cooldown (ceil_seconds remaining))])
        else
          let count := S (sabotageCount targetPlayer) in
          let s1 := with_players
                      (reg_update targetPlayerId (set_sabotageCount count)
                                  (players s)) s in
          let out1 := [(ToRoom, sabotage_attempt (name imp) (name targetPlayer)
                                  count success sabotageType)] in
          if 3 <=? count then
            let s2 := with_players
                        (reg_update targetPlayerId (set_isAlive false)
                                    (players s1)) s1 in
            let s3 := with_killCooldowns
                        (<[id imp := now']> (killCooldowns s2)) s2 in
            let '(s4, out4) := checkGameEnd s3 in
            (s4, out1 ++
                 [(ToRoom, player_killed (id targetPlayer) (name targetPlayer)
                             (name imp));
                  (ToSocket sid, kill_cooldown_active 30)] ++ out4)
          else (s1, out1)
      else (s, [])
  | _, _ => (s, [])
  end.

(** [trigger-sabotage] *)
Definition triggerSabotage (sid : ident) (sabotageType : string)
    (targetPlayerId : ident) (s : game_state) : game_state * list emit :=
  match reg_get sid (players s) with
  | Some imp =>
      if is_role impostor imp then
        (s, [(ToOthers sid,
              sabotage_triggered sabotageType (name imp) targetPlayerId)])
      else (s, [])
  | None => (s, [])
  end.

(** [report-body] *)
Definition reportBody (sid : ident) (location : string) (s : game_state)
  : game_state * list emit :=
  match reg_get sid (players s) with
  | Some reporter =>
      if isAlive reporter then
        let '(s1, out1) := startEmergencyMeeting s in
        (s1, (ToRoom, body_reported (name reporter) location) :: out1)
      else (s, [])
  | None => (s, [])
  end.

(** [emergency-meeting] *)
Definition emergencyMeeting (sid : ident) (s : game_state)
  : game_state * list emit :=
  match reg_get sid (players s) with
  | Some caller => if isAlive caller then startEmergencyMeeting s else (s, [])
  | None => (s, [])
  end.

(** [submit-vote] *)
Definition submitVote (sid : ident) (votedFor : option ident) (s : game_state)
  : game_state * list emit :=
  match reg_get sid (players s) with
  | Some p =>
      if isAlive p then
        let s1 := with_players
                    (reg_update sid (set_vote votedFor) (players s)) s in
        let out1 := [(ToRoom, vote_submitted (id p) (name p))] in
        let alivePlayers := List.filter isAlive (players s1) in
        let votedPlayers := List.filter has_voted alivePlayers in
        if length votedPlayers =? length alivePlayers then
          let '(s2, out2) := processVotes s1 in (s2, out1 ++ out2)
        else (s1, out1)
      else (s, [])
  | None => (s, [])
  end.

(** [chat-message] *)
Definition chatMessage (sid : ident) (text : string) (s : game_state)
  : game_state * list emit :=
  match reg_get sid (players s) with
  | Some p =>
      (s, [(ToRoom, chat_message (name p) text (color p) (negb (isAlive p))
                      (role p))])
  | None => (s, [])
  end.

(** [request-game-state] *)
Definition requestGameState (sid : ident) (s : game_state)
  : game_state * list emit :=
  match reg_get sid (players s) with
  | Some p =>
      (s, (ToSocket sid,
           game_state_update (map roster_of (players s)) (timeRemaining s)
                             (gameTimer s)) ::
          (if is_role crewmate p
           then [(ToSocket sid, restore_task_progress (taskProgress p))]
           else []))
  | None => (s, [])
  end.

(** [disconnect] *)
Definition disconnect (sid : ident) (s : game_state) : game_state * list emit :=
  match reg_get sid (players s) with
  | Some p =>
      let s1 := with_players (reg_delete sid (players s)) s in
      let s2 := if length (players s1) =? 0 then with_gameTimer false s1
                else s1 in
      (s2, (ToRoom, player_disconnected sid (name p)) :: broadcastPlayerList s1)
  | None => (s, [])
  end.

(** ** The session as a state machine *)

Inductive event :=
  | join_lobby (sid : ident) (playerName : string) (colorIndex : nat)
               (shuffled : list task)
  | start_game (sid : ident) (draws : list nat)
  | task_progress_ev (sid : ident) (task progress screenData : string)
  | save_task_progress (sid : ident) (tp : task_progress)
  | task_completed (sid : ident) (taskId : string) (n : Z)
  | attempt_sabotage (sid targetPlayerId : ident) (success : bool)
                     (sabotageType : string) (now now' : Z)
  | trigger_sabotage (sid : ident) (sabotageType : string) (targetPlayerId : ident)
  | report_body (sid : ident) (location : string)
  | emergency_meeting (sid : ident)
  | submit_vote (sid : ident) (votedFor : option ident)
  | chat_message_ev (sid : ident) (text : string)
  | request_game_state (sid : ident)
  | disconnect_ev (sid : ident)
  | timer_tick
  | meeting_timeout
  | lobby_reset_timeout.

Definition handle (e : event) (s : game_state) : game_state * list emit :=
  match e with
  | join_lobby sid nm k sh => joinLobby sid nm k sh s
  | start_game _ draws => startGame draws s
  | task_progress_ev sid t p d => taskProgressRelay sid t p d s
  | save_task_progress sid tp => saveTaskProgress sid tp s
  | task_completed sid _ n => taskCompleted sid n s
  | attempt_sabotage sid tgt ok ty now now' =>
      attemptSabotage sid tgt ok ty now now' s
  | trigger_sabotage sid ty tgt => triggerSabotage sid ty tgt s
  | report_body sid loc => reportBody sid loc s
  | emergency_meeting sid => emergencyMeeting sid s
  | submit_vote sid v => submitVote sid v s
  | chat_message_ev sid text => chatMessage sid text s
  | request_game_state sid => requestGameState sid s
  | disconnect_ev sid => disconnect sid s
  | timer_tick => timerTick s
  | meeting_timeout => meetingTimeout s
  | lobby_reset_timeout => lobbyReset s
  end.

(** What the environment guarantees of an event in state [s]: identifiers are
    not empty, random draws are in range, the shuffle rearranges the catalog,
    and a timer callback runs only while it is pending. *)
Definition valid_event (s : game_state) (e : event) : Prop :=
  match e with
  | join_lobby sid _ k sh =>
      sid ≠ "" ∧ k < length colors ∧ Permutation sh CREWMATE_TASKS
  | start_game _ draws =>
      2 ≤ length (players s) →
      ∃ r rest, draws = r :: rest ∧ r < length (players s)
  | timer_tick => gameTimer s = true
  | meeting_timeout => 0 < pendingMeetings s
  | lobby_reset_timeout => pendingLobbyResets s ≠ []
  | _ => True
  end.

(** Runs of the server: the states reached and the messages emitted. *)
Inductive run : game_state → list event → game_state → list emit → Prop :=
  | run_nil s : run s [] s []
  | run_cons s e s1 out1 es s2 out2 :
      valid_event s e →
      handle e s = (s1, out1) →
      run s1 es s2 out2 →
      run s (e :: es) s2 (out1 ++ out2).

Definition reachable (s : game_state) : Prop :=
  ∃ es out, run initial_state es s out.

(** * Vocabulary of the properties *)

(** ** Invariants and frames *)

(** Fields that no handler writes after [join-lobby]. *)
Definition kept (p p' : player) : Prop :=
  oid p' = oid p ∧ id p' = id p ∧ name p' = name p ∧
  tasks p' = tasks p ∧ color p' = color p.

(** The registry is a [Map] keyed by non-empty connection identifiers. *)
Definition wf_registry (ps : list player) : Prop :=
  NoDup (map id ps) ∧ "" ∉ map id ps.

(** A task set drawn by [getRandomTasks(3)]. *)
Definition tasks_ok (ts : list task) : Prop :=
  length ts = 3 ∧ NoDup ts ∧ ts ⊆ CREWMATE_TASKS.

Definition session_inv (s : game_state) : Prop :=
  wf_registry (players s) ∧ Forall tasks_ok (map tasks (players s)).

(** What the first [forEach] of [start-game] writes in every record. *)
Definition round_reset (p : player) : Prop :=
  isAlive p = true ∧ sabotageCount p = 0 ∧ vote p = None ∧
  taskProgress p = blank_progress.

(** The record literal of [join-lobby] after the task draw. *)
Definition fresh_player (s : game_state) (sid : ident) (playerName : string)
    (colorIndex : nat) (shuffled : list task) : player :=
  mkPlayer (nextObject s) sid playerName None true (getRandomTasks shuffled 3) 0
           (getRandomColor colorIndex) blank_progress None.

(** ** Ballots *)

(** The number of ballots for [t]: players whose [vote] is [t]. *)
Definition count_votes (t : ident) (ps : list player) : nat :=
  length (List.filter (λ p, bool_decide (vote p = Some t)) ps).

(** The own property [k] of the tally object, if there is one. *)
Fixpoint votes_get (k : ident) (votes : list (ident * tally_value))
  : option tally_value :=
  match votes with
  | [] => None
  | (k', v) :: rest => if decide (k' = k) then Some v else votes_get k rest
  end.

(** What the tally object holds under [k] once [n] ballots for [k] are in. *)
Definition tallied (k : ident) (n : nat) : option tally_value :=
  if decide (k = "__proto__") then None
  else match n with
       | 0 => None
       | S _ => Some (if inherited k then tally_text n else tally_count n)
       end.

(** The shape of the tally object: one entry per key, positive counts. *)
Definition votes_wf (votes : list (ident * tally_value)) : Prop :=
  NoDup (map fst votes) ∧
  Forall (λ e, match e.2 with tally_count n => 0 < n | tally_text _ => True end)
         votes.

(** What the three locals hold after the scan of a tally object. *)
Definition scan_post (votes : list (ident * tally_value)) (st : scan_state)
  : Prop :=
  (∀ k n, (k, tally_count n) ∈ votes → n ≤ maxVotes st) ∧
  (maxVotes st = 0 → st = mkScan 0 None false) ∧
  (0 < maxVotes st →
   ∃ k, ejectedPlayerId st = Some k ∧ (k, tally_count (maxVotes st)) ∈ votes) ∧
  (tie st = true ↔
   (∃ k1 k2, k1 ≠ k2 ∧ (k1, tally_count (maxVotes st)) ∈ votes ∧
             (k2, tally_count (maxVotes st)) ∈ votes)).

(** The [voters] object of a registry with distinct identities. *)
Definition voters_of (ps : list player) : list (ident * ident) :=
  omap (λ p, if decide (id p = "__proto__") then None
             else pair (id p) <$> vote p) ps.

(** A sequence of [submit-vote] calls, in arrival order. *)
Fixpoint submit_all (calls : list (ident * option ident)) (s : game_state)
  : game_state * list emit :=
  match calls with
  | [] => (s, [])
  | (voter, votedFor) :: rest =>
      let '(s1, out1) := submitVote voter votedFor s in
      let '(s2, out2) := submit_all rest s1 in
      (s2, out1 ++ out2)
  end.

(** The messages other than the [vote-submitted] notices. *)
Definition resolution_events (out : list emit) : list emit :=
  List.filter (λ e, match e.2 with vote_submitted _ _ => false | _ => true end)
              out.

(** The identities named by [player-ejected] messages. *)
Definition ejected_ids (out : list emit) : list ident :=
  omap (λ e, match e.2 with
             | player_ejected pid _ _ _ _ => Some pid
             | _ => None
             end) out.

(** The [vote] fields after the calls, resolution left aside. *)
Definition cast (calls : list (ident * option ident)) (ps : list player)
  : list player :=
  fold_left (λ acc c, reg_update c.1 (set_vote c.2) acc) calls ps.

(** The early-resolution test of [submit-vote]. *)
Definition all_voted (ps : list player) : bool :=
  length (List.filter has_voted (List.filter isAlive ps))
  =? length (List.filter isAlive ps).

(** A voter of the calls is registered, alive and has no vote recorded. *)
Definition fresh_voters (calls : list (ident * option ident)) (ps : list player)
  : Prop :=
  ∀ v x, (v, x) ∈ calls →
         ∃ p, reg_get v ps = Some p ∧ isAlive p = true ∧ vote p = None.

(** ** Running the server on traces *)

Fixpoint exec (es : list event) (s : game_state) : game_state * list emit :=
  match es with
  | [] => (s, [])
  | e :: rest =>
      let '(s1, out1) := handle e s in
      let '(s2, out2) := exec rest s1 in
      (s2, out1 ++ out2)
  end.

Fixpoint valid_trace (s : game_state) (es : list event) : Prop :=
  match es with
  | [] => True
  | e :: rest => valid_event s e ∧ valid_trace (handle e s).1 rest
  end.

(** ** Scenarios *)

(** Four connections join and a round starts with the first as impostor. *)
Definition lobby4 : list event :=
  [ join_lobby "A" "Ann" 0 CREWMATE_TASKS;
    join_lobby "B" "Bob" 1 CREWMATE_TASKS;
    join_lobby "C" "Cyd" 2 CREWMATE_TASKS;
    join_lobby "D" "Dee" 3 CREWMATE_TASKS;
    start_game "A" [0] ].

Definition t0 : Z := 1700000000000.

(** The impostor hits B three times; the third hit kills. *)
Definition kill_B : list event :=
  [ attempt_sabotage "A" "B" true "virus" t0 t0;
    attempt_sabotage "A" "B" true "virus" t0 t0;
    attempt_sabotage "A" "B" true "virus" t0 t0 ].

Definition after_kill : game_state := (exec (lobby4 ++ kill_B) initial_state).1.

(** After the kill, the impostor hits C twice within the cooldown window. *)
Definition two_hits_on_C : list event :=
  [ attempt_sabotage "A" "C" true "virus" (t0 + 1000) (t0 + 1000);
    attempt_sabotage "A" "C" true "virus" (t0 + 2000) (t0 + 2000) ].

Definition after_two_hits : game_state := (exec two_hits_on_C after_kill).1.

(** The solo round: one participant, no impostor. *)
Definition solo_round : list event :=
  [ join_lobby "A" "Ann" 0 CREWMATE_TASKS; start_game "A" [] ].

Definition solo : game_state := (exec solo_round initial_state).1.

(** The round of [after_kill] ends on completed tasks, a participant leaves,
    the lobby reset runs, a new round starts with the same impostor, who
    hits B twice, all within 25 seconds of the kill. *)
Definition next_round : list event :=
  [ task_completed "B" "network" 3;
    task_completed "C" "network" 3;
    task_completed "D" "network" 3;
    disconnect_ev "D";
    lobby_reset_timeout;
    start_game "A" [0];
    attempt_sabotage "A" "B" true "virus" (t0 + 20000) (t0 + 20000);
    attempt_sabotage "A" "B" true "virus" (t0 + 21000) (t0 + 21000) ].

Definition in_next_round : game_state := (exec next_round after_kill).1.

Definition saved_progress : task_progress :=
  mkProgress 1 (mkSlot true (Some "entries:17")) blank_slot blank_slot.

(** A round of two in which the crewmate saves a task payload. *)
Definition round_with_save : list event :=
  [ join_lobby "A" "Ann" 0 CREWMATE_TASKS;
    join_lobby "B" "Bob" 1 CREWMATE_TASKS;
    start_game "A" [1];
    save_task_progress "A" saved_progress ].

Definition with_save : game_state := (exec round_with_save initial_state).1.

(** A meeting in the round of four: A and B have voted for C. *)
Definition meeting : list event :=
  lobby4 ++ [ emergency_meeting "B";
              submit_vote "A" (Some "C");
              submit_vote "B" (Some "C") ].

Definition two_votes : game_state := (exec meeting initial_state).1.

(** C votes for A: C has two ballots of three. *)
Definition majority_vote : game_state :=
  with_players (reg_update "C" (set_vote (Some "A")) (players two_votes))
               two_votes.

(** C and D vote for D: four ballots, two for C and two for D. *)
Definition split_vote : game_state :=
  with_players
    (reg_update "D" (set_vote (Some "D"))
       (reg_update "C" (set_vote (Some "D")) (players two_votes)))
    two_votes.

(** A meeting in which A, B and C vote for D, who then disconnects. *)
Definition ghost_vote : list event :=
  lobby4 ++ [ emergency_meeting "B";
              submit_vote "A" (Some "D");
              submit_vote "B" (Some "D");
              submit_vote "C" (Some "D");
              disconnect_ev "D" ].

Definition before_timeout : game_state := (exec ghost_vote initial_state).1.

(** A meeting in which A, B and C have voted (for B, C and A) and D, who has
    not, disconnects: every remaining participant has a vote recorded, and no
    resolution has run. *)
Definition all_voted_meeting : list event :=
  lobby4 ++ [ emergency_meeting "B";
              submit_vote "A" (Some "B");
              submit_vote "B" (Some "C");
              submit_vote "C" (Some "A");
              disconnect_ev "D" ].

Definition revote_state : game_state := (exec all_voted_meeting initial_state).1.

(** A meeting in which A votes for C and B sends the name [__proto__]; C and
    D do not vote. *)
Definition inherited_vote : list event :=
  lobby4 ++ [ emergency_meeting "B";
              submit_vote "A" (Some "C");
              submit_vote "B" (Some "__proto__") ].

Definition one_against_one : game_state := (exec inherited_vote initial_state).1.

(** A meeting in which A and B have voted for C and C has sent the name
    [constructor]; D has not voted yet. *)
Definition inherited_split : list event :=
  meeting ++ [ submit_vote "C" (Some "constructor") ].

Definition two_against_two : game_state :=
  (exec inherited_split initial_state).1.

(** The meeting has just opened; all four vote, C three times named. *)
Definition meeting_open : game_state :=
  (exec (lobby4 ++ [emergency_meeting "B"]) initial_state).1.

Definition four_calls : list (ident * option ident) :=
  [("A", Some "C"); ("B", Some "C"); ("C", Some "A"); ("D", Some "C")].

(** ** Round-scoped fields, timer and senders *)

(** Between two states of one round: the join-time fields and the role are
    the same, an eliminated participant stays eliminated, and the sabotage
    accumulator has not decreased. *)
Definition steady (p p' : player) : Prop :=
  kept p p' ∧ role p' = role p ∧ (isAlive p' = true → isAlive p = true) ∧
  sabotageCount p ≤ sabotageCount p'.

(** Events that open or close a round or change the registered identities:
    [join-lobby], [start-game], [disconnect] and the deferred lobby reset. *)
Definition round_boundary (e : event) : bool :=
  match e with
  | join_lobby _ _ _ _ | start_game _ _ | disconnect_ev _
  | lobby_reset_timeout => true
  | _ => false
  end.

(** The number of registered participants with the impostor role. *)
Definition impostor_count (ps : list player) : nat :=
  length (List.filter (is_role impostor) ps).

(** The countdown stays within the round duration and is positive while the
    interval is installed. *)
Definition timer_inv (s : game_state) : Prop :=
  (0 ≤ timeRemaining s ≤ 300)%Z ∧ (gameTimer s = true → (0 < timeRemaining s)%Z).

(** The socket of an event whose handler starts with
    [gameState.players.get(socket.id)]. *)
Definition sender (e : event) : option ident :=
  match e with
  | task_progress_ev sid _ _ _ | save_task_progress sid _
  | task_completed sid _ _ | attempt_sabotage sid _ _ _ _ _
  | trigger_sabotage sid _ _ | report_body sid _ | emergency_meeting sid
  | submit_vote sid _ | chat_message_ev sid _ | request_game_state sid
  | disconnect_ev sid => Some sid
  | _ => None
  end.

(** The number of positions at which the alive flag differs. *)
Definition alive_changes (ps ps' : list player) : nat :=
  length (List.filter (λ pq, negb (Bool.eqb (isAlive pq.1) (isAlive pq.2)))
                      (zip ps ps')).

(** The [game-started] messages among the emitted ones. *)
Definition game_started_events (out : list emit) : list emit :=
  List.filter (λ e, match e.2 with game_started _ _ _ => true | _ => false end)
              out.

(** A record before and after a vote resolution: only the vote, cleared, and
    the alive flag, possibly lowered, may differ. *)
Definition resolved (p p' : player) : Prop :=
  kept p p' ∧ role p' = role p ∧ sabotageCount p' = sabotageCount p ∧
  taskProgress p' = taskProgress p ∧ vote p' = None ∧
  (isAlive p' = true → isAlive p = true).

(** The numbers of [game-ended] and of [return-to-lobby] broadcasts. *)
Definition game_ended_count (out : list emit) : nat :=
  length (List.filter
            (λ e, match e.2 with game_ended _ _ _ => true | _ => false end) out).

Definition return_to_lobby_count (out : list emit) : nat :=
  length (List.filter
            (λ e, match e.2 with return_to_lobby => true | _ => false end) out).

(** * Properties *)

(** ** The registry *)

Section registry.
Implicit Types (ps : list player) (p q : player) (k : ident).

Lemma reg_get_id k ps p : reg_get k ps = Some p → id p = k.
Proof.
  induction ps as [|q ps IH]; simpl; [done|].
  destruct (decide (id q = k)); [congruence | auto].
Qed.

Lemma reg_get_elem k ps p : reg_get k ps = Some p → p ∈ ps.
Proof.
  induction ps as [|q ps IH]; simpl; [done|].
  destruct (decide (id q = k)).
  - intros [= ->]. left.
  - intros H. right. auto.
Qed.

Lemma reg_get_None k ps : reg_get k ps = None ↔ k ∉ map id ps.
Proof.
  induction ps as [|q ps IH]; simpl.
  - split; [intros _; apply not_elem_of_nil | done].
  - rewrite not_elem_of_cons. destruct (decide (id q = k)) as [E|E].
    + split; [done | intros [? _]; congruence].
    + rewrite IH. split; [intros ?; split; [congruence | done] | by intros [_ ?]].
Qed.

Lemma reg_get_Some_of_elem k ps : k ∈ map id ps → is_Some (reg_get k ps).
Proof.
  intros H. destruct (reg_get k ps) eqn:E; [eauto|].
  apply reg_get_None in E. done.
Qed.

(** Under unique keys, the entry found is the only one with that key. *)
Lemma reg_get_of_elem ps p :
  NoDup (map id ps) → p ∈ ps → reg_get (id p) ps = Some p.
Proof.
  induction ps as [|q ps IH]; simpl; [intros _ H; by apply elem_of_nil in H|].
  rewrite NoDup_cons. intros [Hq Hnd] [->|Hin]%elem_of_cons.
  - by rewrite decide_True.
  - rewrite decide_False; [auto|].
    intros E. apply Hq. rewrite E. by apply list_elem_of_fmap_2.
Qed.

Variable f : player → player.
Hypothesis f_id : ∀ q, id (f q) = id q.

Lemma reg_update_ids k ps : map id (reg_update k f ps) = map id ps.
Proof using f_id.
  induction ps as [|q ps IH]; simpl; [done|].
  destruct (decide (id q = k)); simpl; [by rewrite f_id | by rewrite IH].
Qed.

Lemma reg_update_length k ps : length (reg_update k f ps) = length ps.
Proof.
  induction ps as [|q ps IH]; simpl; [done|].
  destruct (decide (id q = k)); simpl; by rewrite ?IH.
Qed.

Lemma reg_get_update k k' ps :
  reg_get k' (reg_update k f ps) =
  if decide (k = k') then f <$> reg_get k' ps else reg_get k' ps.
Proof using f_id.
  induction ps as [|q ps IH]; simpl.
  - by destruct (decide (k = k')).
  - destruct (decide (id q = k)) as [E|E]; simpl.
    + rewrite f_id. destruct (decide (k = k')) as [<-|N].
      * by rewrite !decide_True.
      * rewrite !decide_False by congruence. done.
    + rewrite IH. destruct (decide (id q = k')) as [E'|E']; [|done].
      rewrite decide_False by congruence. done.
Qed.

(** Under unique keys the mutation is pointwise. *)
Lemma reg_update_map k ps :
  NoDup (map id ps) →
  reg_update k f ps = map (λ q, if decide (id q = k) then f q else q) ps.
Proof.
  induction ps as [|q ps IH]; simpl; [done|].
  rewrite NoDup_cons. intros [Hq Hnd].
  destruct (decide (id q = k)) as [E|E]; [|by rewrite IH].
  f_equal. clear IH. induction ps as [|r ps IH]; simpl; [done|].
  simpl in Hq, Hnd. apply not_elem_of_cons in Hq as [Hr Hq].
  apply NoDup_cons in Hnd as [_ Hnd].
  rewrite decide_False by congruence. f_equal. auto.
Qed.

Lemma reg_update_absent k ps : reg_get k ps = None → reg_update k f ps = ps.
Proof.
  induction ps as [|q ps IH]; simpl; [done|].
  destruct (decide (id q = k)); [done|]. intros H. by rewrite IH.
Qed.
End registry.

Lemma reg_update_comm (f g : player → player) k1 k2 ps :
  (∀ q, id (f q) = id q) → (∀ q, id (g q) = id q) → k1 ≠ k2 →
  reg_update k1 f (reg_update k2 g ps) = reg_update k2 g (reg_update k1 f ps).
Proof.
  intros Hf Hg Hne. induction ps as [|q ps IH]; simpl; [done|].
  destruct (decide (id q = k2)) as [E2|E2];
    destruct (decide (id q = k1)) as [E1|E1]; simpl.
  - congruence.
  - rewrite Hg. repeat case_decide; congruence.
  - rewrite Hf. repeat case_decide; congruence.
  - repeat case_decide; congruence.
Qed.

Lemma reg_set_ids p ps :
  map id (reg_set p ps) =
  if bool_decide (id p ∈ map id ps) then map id ps else map id ps ++ [id p].
Proof.
  induction ps as [|q ps IH]; simpl; [done|].
  destruct (decide (id q = id p)) as [E|E]; simpl.
  - rewrite bool_decide_eq_true_2 by (rewrite E; left). by rewrite E.
  - rewrite IH. destruct (bool_decide (id p ∈ map id ps)) eqn:B.
    + apply bool_decide_eq_true in B.
      rewrite bool_decide_eq_true_2 by (by right). done.
    + apply bool_decide_eq_false in B.
      rewrite bool_decide_eq_false_2; [done|].
      rewrite not_elem_of_cons. split; [congruence | done].
Qed.

Lemma reg_get_set p k ps :
  reg_get k (reg_set p ps) = if decide (id p = k) then Some p else reg_get k ps.
Proof.
  induction ps as [|q ps IH]; simpl.
  - done.
  - destruct (decide (id q = id p)) as [E|E]; simpl.
    + destruct (decide (id p = k)) as [E'|E'].
      * done.
      * rewrite decide_False by congruence. done.
    + rewrite IH. destruct (decide (id q = k)) as [E'|E']; [|done].
      rewrite decide_False by congruence. done.
Qed.

Lemma reg_delete_sublist k ps : sublist (reg_delete k ps) ps.
Proof.
  induction ps as [|q ps IH]; simpl; [done|].
  destruct (decide (id q = k)).
  - by apply sublist_cons.
  - by apply sublist_skip.
Qed.

Lemma reg_get_delete k ps :
  NoDup (map id ps) → reg_get k (reg_delete k ps) = None.
Proof.
  induction ps as [|q ps IH]; simpl; [done|].
  rewrite NoDup_cons. intros [Hq Hnd].
  destruct (decide (id q = k)) as [E|E]; simpl.
  - apply reg_get_None. by rewrite <- E.
  - rewrite decide_False by done. auto.
Qed.

(** ** Frame properties of the helpers *)

Lemma kept_refl p : kept p p.
Proof. by repeat split. Qed.

Lemma kept_trans p1 p2 p3 : kept p1 p2 → kept p2 p3 → kept p1 p3.
Proof. unfold kept. intros (?&?&?&?&?) (?&?&?&?&?). repeat split; congruence. Qed.

Lemma Forall2_kept_refl ps : Forall2 kept ps ps.
Proof. induction ps; constructor; auto using kept_refl. Qed.

Lemma Forall2_kept_trans ps1 ps2 ps3 :
  Forall2 kept ps1 ps2 → Forall2 kept ps2 ps3 → Forall2 kept ps1 ps3.
Proof.
  intros H. revert ps3. induction H; intros ps3 H3; inversion H3; subst;
    constructor; eauto using kept_trans.
Qed.

Lemma Forall2_kept_map (f : player → player) ps :
  (∀ p, kept p (f p)) → Forall2 kept ps (map f ps).
Proof. intros Hf. induction ps; simpl; constructor; auto. Qed.

Lemma Forall2_kept_imap (f : nat → player → player) ps :
  (∀ i p, kept p (f i p)) → Forall2 kept ps (imap f ps).
Proof.
  revert f. induction ps as [|p ps IH]; intros f Hf; simpl; constructor.
  - apply Hf.
  - apply IH. intros i q. apply Hf.
Qed.

Lemma Forall2_kept_update k (f : player → player) ps :
  (∀ p, kept p (f p)) → Forall2 kept ps (reg_update k f ps).
Proof.
  intros Hf. induction ps as [|p ps IH]; simpl; [constructor|].
  destruct (decide (id p = k)); constructor;
    auto using kept_refl, Forall2_kept_refl.
Qed.

Lemma Forall2_kept_ids ps ps' : Forall2 kept ps ps' → map id ps' = map id ps.
Proof.
  induction 1 as [|p p' ps ps' (?&?&?) _ IH]; simpl; [done|]. by f_equal.
Qed.

Lemma Forall2_kept_tasks ps ps' :
  Forall2 kept ps ps' → map tasks ps' = map tasks ps.
Proof.
  induction 1 as [|p p' ps ps' (?&?&?&?&?) _ IH]; simpl; [done|]. by f_equal.
Qed.

Lemma kept_set_role r p : kept p (set_role r p).
Proof. by repeat split. Qed.
Lemma kept_set_isAlive b p : kept p (set_isAlive b p).
Proof. by repeat split. Qed.
Lemma kept_set_sabotageCount n p : kept p (set_sabotageCount n p).
Proof. by repeat split. Qed.
Lemma kept_set_taskProgress tp p : kept p (set_taskProgress tp p).
Proof. by repeat split. Qed.
Lemma kept_set_vote v p : kept p (set_vote v p).
Proof. by repeat split. Qed.
Lemma kept_lobby_reset_player p : kept p (lobby_reset_player p).
Proof. by repeat split. Qed.
Lemma kept_start_player l i p : kept p (start_player l i p).
Proof. by repeat split. Qed.

Create HintDb kept discriminated.
#[global] Hint Resolve kept_refl Forall2_kept_refl Forall2_kept_map
  Forall2_kept_imap Forall2_kept_update kept_set_role kept_set_isAlive
  kept_set_sabotageCount kept_set_taskProgress kept_set_vote
  kept_lobby_reset_player kept_start_player : kept.

Lemma Forall2_kept_clear_votes ps : Forall2 kept ps (clear_votes ps).
Proof. unfold clear_votes. auto with kept. Qed.

#[global] Hint Resolve Forall2_kept_clear_votes : kept.

(** [endGame] and [checkGameEnd] leave the registry and the cooldown ledger
    alone. *)
Lemma endGame_players w r s : players (endGame w r s).1 = players s.
Proof. done. Qed.

Lemma endGame_killCooldowns w r s :
  killCooldowns (endGame w r s).1 = killCooldowns s.
Proof. done. Qed.

Lemma checkGameEnd_players s : players (checkGameEnd s).1 = players s.
Proof. unfold checkGameEnd. by destruct (decide_winner s) as [[??]|]. Qed.

Lemma checkGameEnd_killCooldowns s :
  killCooldowns (checkGameEnd s).1 = killCooldowns s.
Proof. unfold checkGameEnd. by destruct (decide_winner s) as [[??]|]. Qed.

(** Names the components of a destructured call of [checkGameEnd]. *)
Ltac name_checkGameEnd :=
  repeat match goal with
  | |- context [checkGameEnd ?s] =>
      let Hp := fresh "Hp" in
      let Hk := fresh "Hk" in
      pose proof (checkGameEnd_players s) as Hp;
      pose proof (checkGameEnd_killCooldowns s) as Hk;
      destruct (checkGameEnd s) as [? ?]; simpl in Hp, Hk
  end.

Lemma processVotes_killCooldowns s :
  killCooldowns (processVotes s).1 = killCooldowns s.
Proof.
  unfold processVotes. destruct (tally (players s)) as [votes voters].
  destruct (_ && _); [|done].
  destruct (ejectedPlayerId _); [|done].
  destruct (reg_get _ _); [|done].
  name_checkGameEnd. done.
Qed.

Lemma processVotes_kept s : Forall2 kept (players s) (players (processVotes s).1).
Proof.
  unfold processVotes. destruct (tally (players s)) as [votes voters].
  destruct (_ && _); [|simpl; auto with kept].
  destruct (ejectedPlayerId _); [|simpl; auto with kept].
  destruct (reg_get _ _); [|simpl; auto with kept].
  name_checkGameEnd. simpl in *. rewrite Hp.
  eapply Forall2_kept_trans; [|apply Forall2_kept_clear_votes].
  auto with kept.
Qed.

Lemma startEmergencyMeeting_kept s :
  Forall2 kept (players s) (players (startEmergencyMeeting s).1).
Proof. simpl. auto with kept. Qed.

Lemma lobbyReset_kept s : Forall2 kept (players s) (players (lobbyReset s).1).
Proof.
  unfold lobbyReset. destruct (pendingLobbyResets s); simpl; [auto with kept|].
  apply Forall2_kept_map. intros p. case_bool_decide; auto with kept.
Qed.

Lemma startGame_kept draws s :
  Forall2 kept (players s) (players (startGame draws s).1).
Proof.
  unfold startGame. destruct (1 <=? _); simpl; auto with kept.
Qed.

(** Every handler but [join-lobby] and [disconnect] keeps the registered
    identities and the fields fixed at join time. *)
Lemma handle_kept e s :
  match e with
  | join_lobby _ _ _ _ | disconnect_ev _ => True
  | _ => Forall2 kept (players s) (players (handle e s).1)
  end.
Proof.
  destruct e; simpl; try done.
  - apply startGame_kept.
  - unfold taskProgressRelay.
    destruct (reg_get _ _); [destruct (is_role _ _)|]; simpl; auto with kept.
  - unfold saveTaskProgress.
    destruct (reg_get _ _); [destruct (is_role _ _)|]; simpl; auto with kept.
    destruct (3 <=? _)%Z; simpl; [|auto with kept].
    rewrite checkGameEnd_players. simpl. auto with kept.
  - unfold taskCompleted.
    destruct (reg_get _ _); [destruct (is_role _ _)|]; simpl; auto with kept.
    name_checkGameEnd. simpl. rewrite Hp. auto with kept.
  - unfold attemptSabotage.
    destruct (reg_get sid _); [|simpl; auto with kept].
    destruct (reg_get targetPlayerId _); [|simpl; auto with kept].
    destruct (_ && _); [|simpl; auto with kept].
    destruct (_ && _); [simpl; auto with kept|].
    destruct (3 <=? _); [|simpl; auto with kept].
    name_checkGameEnd. simpl. rewrite Hp. simpl.
    eapply Forall2_kept_trans; [|apply Forall2_kept_update; auto with kept].
    auto with kept.
  - unfold triggerSabotage.
    destruct (reg_get _ _); [destruct (is_role _ _)|]; simpl; auto with kept.
  - unfold reportBody.
    destruct (reg_get _ _); [destruct (isAlive _)|]; simpl; auto with kept.
  - unfold emergencyMeeting.
    destruct (reg_get _ _); [destruct (isAlive _)|]; simpl; auto with kept.
  - unfold submitVote.
    destruct (reg_get _ _); [destruct (isAlive _)|]; simpl; auto with kept.
    destruct (_ =? _); [|simpl; auto with kept].
    match goal with |- context [processVotes ?s1] =>
      pose proof (processVotes_kept s1) as Hk;
      destruct (processVotes s1) as [s2 out2] end.
    simpl in *. eapply Forall2_kept_trans; [|exact Hk]. auto with kept.
  - unfold chatMessage. destruct (reg_get _ _); simpl; auto with kept.
  - unfold requestGameState. destruct (reg_get _ _); simpl; auto with kept.
  - unfold timerTick. destruct (_ <=? _)%Z; [|simpl; auto with kept].
    name_checkGameEnd. simpl. rewrite Hp. simpl. auto with kept.
  - unfold meetingTimeout. destruct (0 <? _); [|simpl; auto with kept].
    apply (processVotes_kept (with_pendingMeetings _ s)).
  - apply lobbyReset_kept.
Qed.

(** Only a sabotage that kills writes the cooldown ledger, and it writes the
    impostor's entry. *)
Lemma handle_killCooldowns e s :
  killCooldowns (handle e s).1 = killCooldowns s ∨
  ∃ sid tgt ok ty now now',
    e = attempt_sabotage sid tgt ok ty now now' ∧
    killCooldowns (handle e s).1 = <[sid := now']> (killCooldowns s).
Proof.
  destruct e; simpl.
  - by left.
  - left. unfold startGame. by destruct (1 <=? _).
  - left. unfold taskProgressRelay.
    by destruct (reg_get _ _); [destruct (is_role _ _)|].
  - left. unfold saveTaskProgress.
    destruct (reg_get _ _); [destruct (is_role _ _)|]; try done.
    destruct (3 <=? _)%Z; [|done]. by rewrite checkGameEnd_killCooldowns.
  - left. unfold taskCompleted.
    destruct (reg_get _ _); [destruct (is_role _ _)|]; try done.
    name_checkGameEnd. done.
  - unfold attemptSabotage.
    destruct (reg_get sid _) as [imp|] eqn:Himp; [|by left].
    destruct (reg_get targetPlayerId _); [|by left].
    destruct (_ && _); [|by left].
    destruct (_ && _); [by left|].
    destruct (3 <=? _); [|by left].
    right. exists sid, targetPlayerId, success, sabotageType, now, now'.
    split; [done|]. name_checkGameEnd. simpl. rewrite Hk. simpl.
    by rewrite (reg_get_id _ _ _ Himp).
  - left. unfold triggerSabotage.
    by destruct (reg_get _ _); [destruct (is_role _ _)|].
  - left. unfold reportBody.
    by destruct (reg_get _ _); [destruct (isAlive _)|].
  - left. unfold emergencyMeeting.
    by destruct (reg_get _ _); [destruct (isAlive _)|].
  - left. unfold submitVote.
    destruct (reg_get _ _); [destruct (isAlive _)|]; try done.
    destruct (_ =? _); [|done].
    match goal with |- context [processVotes ?s1] =>
      pose proof (processVotes_killCooldowns s1) as Hk;
      destruct (processVotes s1) as [s2 out2] end.
    done.
  - left. unfold chatMessage. by destruct (reg_get _ _).
  - left. unfold requestGameState. by destruct (reg_get _ _).
  - left. unfold disconnect. destruct (reg_get _ _); [|done].
    simpl. by destruct (_ =? _).
  - left. unfold timerTick. destruct (_ <=? _)%Z; [|done].
    name_checkGameEnd. done.
  - left. unfold meetingTimeout. destruct (0 <? _); [|done].
    apply (processVotes_killCooldowns (with_pendingMeetings _ s)).
  - left. unfold lobbyReset. by destruct (pendingLobbyResets s).
Qed.

(** ** Invariants of the reachable states *)

Lemma CREWMATE_TASKS_NoDup : NoDup CREWMATE_TASKS.
Proof. by apply (bool_decide_unpack _). Qed.

Lemma getRandomTasks_ok shuffled :
  Permutation shuffled CREWMATE_TASKS → tasks_ok (getRandomTasks shuffled 3).
Proof.
  intros Hperm. unfold getRandomTasks. repeat split.
  - rewrite length_take_le; [done|].
    rewrite (Permutation_length Hperm). simpl. lia.
  - eapply sublist_NoDup; [|apply sublist_take].
    rewrite Hperm. apply CREWMATE_TASKS_NoDup.
  - intros t Ht. apply subseteq_take in Ht. by rewrite <- Hperm.
Qed.

Lemma Forall_reg_set (P : player → Prop) p ps :
  P p → Forall P ps → Forall P (reg_set p ps).
Proof.
  intros Hp. induction 1 as [|q ps Hq Hps IH]; simpl.
  - by constructor.
  - destruct (decide (id q = id p)); constructor; auto.
Qed.

Lemma Forall_reg_delete (P : player → Prop) k ps :
  Forall P ps → Forall P (reg_delete k ps).
Proof.
  induction 1 as [|q ps Hq Hps IH]; simpl; [constructor|].
  destruct (decide (id q = k)); [done | by constructor].
Qed.

Lemma wf_registry_set p ps :
  id p ≠ "" → wf_registry ps → wf_registry (reg_set p ps).
Proof.
  intros Hne [Hnd Hemp]. unfold wf_registry. rewrite reg_set_ids.
  case_bool_decide as Hin; [done|]. split.
  - apply NoDup_app. repeat split; [done| |apply NoDup_singleton].
    intros x Hx ->%list_elem_of_singleton. done.
  - rewrite elem_of_app, list_elem_of_singleton. intros [?|?]; [done|].
    by apply Hne.
Qed.

Lemma wf_registry_delete k ps : wf_registry ps → wf_registry (reg_delete k ps).
Proof.
  intros [Hnd Hemp].
  assert (sublist (map id (reg_delete k ps)) (map id ps)) as Hsub
    by apply (fmap_sublist id), reg_delete_sublist.
  split.
  - eapply sublist_NoDup; [exact Hnd | exact Hsub].
  - intros Hin. apply Hemp. by eapply sublist_subseteq.
Qed.

Lemma session_inv_kept s s' :
  Forall2 kept (players s) (players s') → session_inv s → session_inv s'.
Proof.
  intros Hk [Hwf Ht]. unfold session_inv, wf_registry.
  by rewrite (Forall2_kept_ids _ _ Hk), (Forall2_kept_tasks _ _ Hk).
Qed.

Lemma handle_inv e s :
  valid_event s e → session_inv s → session_inv (handle e s).1.
Proof.
  intros Hv Hinv. pose proof (handle_kept e s) as Hk.
  destruct e; try (eapply session_inv_kept; [exact Hk | exact Hinv]).
  - (* join-lobby *)
    destruct Hv as (Hsid & _ & Hperm). destruct Hinv as [Hwf Ht].
    simpl. split.
    + by apply wf_registry_set.
    + apply Forall_fmap, Forall_reg_set; [|by apply Forall_fmap].
      simpl. by apply getRandomTasks_ok.
  - (* disconnect *)
    simpl. unfold disconnect. destruct (reg_get _ _); [|done].
    destruct Hinv as [Hwf Ht].
    assert (session_inv (with_players (reg_delete sid (players s)) s)) as H.
    { split; simpl; [by apply wf_registry_delete|].
      apply Forall_fmap, Forall_reg_delete. by apply Forall_fmap. }
    simpl. by destruct (_ =? _).
Qed.

Lemma run_inv s es s' out : run s es s' out → session_inv s → session_inv s'.
Proof.
  induction 1 as [|s e s1 out1 es s2 out2 Hv He _ IH]; [done|].
  intros Hinv. apply IH. pose proof (handle_inv e s Hv Hinv) as H.
  by rewrite He in H.
Qed.

Lemma reachable_inv s : reachable s → session_inv s.
Proof.
  intros (es & out & Hrun). eapply run_inv; [exact Hrun|].
  split; [split|]; simpl; [apply NoDup_nil_2 | apply not_elem_of_nil | constructor].
Qed.

(** ** The sabotage handler *)

Lemma is_role_true r p : is_role r p = true ↔ role p = Some r.
Proof. unfold is_role. apply bool_decide_eq_true. Qed.

Lemma is_role_false r p : is_role r p = false ↔ role p ≠ Some r.
Proof. unfold is_role. apply bool_decide_eq_false. Qed.

(** [Math.ceil(x / 1000)] is the least number of whole seconds covering [x]
    milliseconds. *)
Lemma ceil_seconds_spec x :
  (1000 * (ceil_seconds x - 1) < x ≤ 1000 * ceil_seconds x)%Z.
Proof.
  unfold ceil_seconds.
  pose proof (Z.div_mod (- x) 1000 ltac:(lia)).
  pose proof (Z.mod_pos_bound (- x) 1000 ltac:(lia)). lia.
Qed.

Example ceil_seconds_examples :
  ceil_seconds 27000 = 27%Z ∧ ceil_seconds 26001 = 27%Z ∧
  ceil_seconds 1 = 1%Z ∧ ceil_seconds 30000 = 30%Z.
Proof. done. Qed.

(** The guarded exit of [attempt-sabotage]. *)
Lemma attemptSabotage_guarded sid tgt ok ty now now' s imp target :
  reg_get sid (players s) = Some imp →
  reg_get tgt (players s) = Some target →
  role imp = Some impostor → role target = Some crewmate →
  (0 < cooldownRemaining (killCooldowns s) sid now)%Z →
  2 ≤ sabotageCount target →
  attemptSabotage sid tgt ok ty now now' s =
  (s, [(ToSocket sid,
        kill_cooldown
          (ceil_seconds (cooldownRemaining (killCooldowns s) sid now)))]).
Proof.
  intros Himp Htgt Hri Hrt Hrem Hcount. unfold attemptSabotage.
  rewrite Himp, Htgt, (reg_get_id _ _ _ Himp).
  rewrite (proj2 (is_role_true _ _) Hri), (proj2 (is_role_true _ _) Hrt).
  cbv zeta. cbn [andb]. rewrite (proj2 (Z.ltb_lt _ _) Hrem).
  rewrite (proj2 (Nat.leb_le _ _) Hcount). done.
Qed.

(** A hit below the guard's bound: the accumulator is incremented and the
    attempt is broadcast, whatever the cooldown. *)
Lemma attemptSabotage_below sid tgt ok ty now now' s imp target :
  reg_get sid (players s) = Some imp →
  reg_get tgt (players s) = Some target →
  role imp = Some impostor → role target = Some crewmate →
  sabotageCount target < 2 →
  attemptSabotage sid tgt ok ty now now' s =
  (with_players
     (reg_update tgt (set_sabotageCount (S (sabotageCount target))) (players s))
     s,
   [(ToRoom, sabotage_attempt (name imp) (name target)
               (S (sabotageCount target)) ok ty)]).
Proof.
  intros Himp Htgt Hri Hrt Hcount. unfold attemptSabotage.
  rewrite Himp, Htgt.
  rewrite (proj2 (is_role_true _ _) Hri), (proj2 (is_role_true _ _) Hrt).
  cbv zeta. cbn [andb].
  rewrite (proj2 (Nat.leb_gt _ _) Hcount), andb_false_r.
  destruct (sabotageCount target) as [|[|n]] eqn:E; simpl; [done|done|lia].
Qed.

(** A hit that brings the accumulator to 3 or more, outside the cooldown:
    the kill branch runs, and [isAlive] of the target is not consulted. *)
Lemma attemptSabotage_kill sid tgt ok ty now now' s imp target :
  reg_get sid (players s) = Some imp →
  reg_get tgt (players s) = Some target →
  role imp = Some impostor → role target = Some crewmate →
  (cooldownRemaining (killCooldowns s) sid now ≤ 0)%Z →
  2 ≤ sabotageCount target →
  attemptSabotage sid tgt ok ty now now' s =
  let count := S (sabotageCount target) in
  let s3 :=
    with_killCooldowns (<[sid := now']> (killCooldowns s))
      (with_players
         (reg_update tgt (set_isAlive false)
            (reg_update tgt (set_sabotageCount count) (players s))) s) in
  ((checkGameEnd s3).1,
   [ (ToRoom, sabotage_attempt (name imp) (name target) count ok ty);
     (ToRoom, player_killed (id target) (name target) (name imp));
     (ToSocket sid, kill_cooldown_active 30) ] ++ (checkGameEnd s3).2).
Proof.
  intros Himp Htgt Hri Hrt Hrem Hcount. unfold attemptSabotage.
  rewrite Himp, Htgt, (reg_get_id _ _ _ Himp).
  rewrite (proj2 (is_role_true _ _) Hri), (proj2 (is_role_true _ _) Hrt).
  cbv zeta. cbn [andb]. rewrite (proj2 (Z.ltb_ge _ _) Hrem). cbn [andb].
  assert ((3 <=? S (sabotageCount target)) = true) as ->
    by (apply Nat.leb_le; lia).
  by destruct (checkGameEnd _).
Qed.

(** ** Running the server on concrete traces *)

Lemma exec_run es s : valid_trace s es → run s es (exec es s).1 (exec es s).2.
Proof.
  revert s. induction es as [|e es IH]; intros s; simpl.
  - intros _. constructor.
  - intros [Hv Hrest]. destruct (handle e s) as [s1 out1] eqn:He.
    specialize (IH s1 Hrest). destruct (exec es s1) as [s2 out2].
    econstructor; eauto.
Qed.

(** Discharges [valid_trace] on a closed trace. *)
Ltac valid_trace_tac :=
  repeat match goal with
  | |- valid_trace _ [] => exact I
  | |- valid_trace _ (_ :: _) => split; [| vm_compute handle; simpl fst]
  | |- valid_event _ _ => simpl valid_event
  | |- True => exact I
  | |- _ ∧ _ => split
  | |- _ ≠ _ => discriminate
  | |- _ < _ => vm_compute; lia
  | |- Permutation ?l ?l => reflexivity
  | |- _ = true => reflexivity
  | |- _ → _ =>
      let H := fresh in
      intros H;
      first [ eexists _, _; split; [reflexivity | vm_compute; lia]
            | exfalso; vm_compute in H; lia ]
  end.

Lemma after_kill_reachable : reachable after_kill.
Proof.
  eexists _, _. apply (exec_run (lobby4 ++ kill_B) initial_state).
  unfold lobby4, kill_B. simpl app. valid_trace_tac.
Qed.

(** C1 (defect in the code).  The handler never reads [isAlive] of the
    target and tests [sabotageCount >= 3]: once the cooldown has run out, a
    further hit on the crewmate killed at [t0] raises the accumulator of the
    dead target to 4, broadcasts [player-killed] for it a second time and
    records a second kill in the cooldown ledger. *)
Theorem sabotage_kills_dead_target_again :
  reachable after_kill ∧
  (isAlive <$> reg_get "B" (players after_kill)) = Some false ∧
  (sabotageCount <$> reg_get "B" (players after_kill)) = Some 3 ∧
  killCooldowns after_kill !! "A" = Some t0 ∧
  (sabotageCount <$>
     reg_get "B"
       (players (attemptSabotage "A" "B" true "virus" (t0 + 31000) (t0 + 31000)
                                 after_kill).1)) = Some 4 ∧
  (attemptSabotage "A" "B" true "virus" (t0 + 31000) (t0 + 31000) after_kill).2 =
    [ (ToRoom, sabotage_attempt "Ann" "Bob" 4 true "virus");
      (ToRoom, player_killed "B" "Bob" "Ann");
      (ToSocket "A", kill_cooldown_active 30) ] ∧
  killCooldowns
    (attemptSabotage "A" "B" true "virus" (t0 + 31000) (t0 + 31000) after_kill).1
    !! "A" = Some (t0 + 31000)%Z.
Proof.
  split; [apply after_kill_reachable|]. by vm_compute.
Qed.

(** C2, the claim as stated fails: with an active cooldown (3 of the 30
    seconds elapsed) and a target whose accumulator is 2, below the
    elimination threshold 3, the attempt is rejected with the notice and the
    accumulator is not incremented. *)
Lemma cooldown_guard_rejects_below_threshold :
  (role <$> reg_get "A" (players after_two_hits)) = Some (Some impostor) ∧
  (role <$> reg_get "C" (players after_two_hits)) = Some (Some crewmate) ∧
  (sabotageCount <$> reg_get "C" (players after_two_hits)) = Some 2 ∧
  cooldownRemaining (killCooldowns after_two_hits) "A" (t0 + 3000) = 27000%Z ∧
  attemptSabotage "A" "C" true "virus" (t0 + 3000) (t0 + 3000) after_two_hits =
    (after_two_hits, [(ToSocket "A", kill_cooldown 27)]).
Proof. by vm_compute. Qed.

(** C2, as amended.  For an impostor with an active cooldown and a crewmate
    target, the attempt is rejected with the notice carrying the remaining
    seconds exactly when the target's accumulator is already at least 2, that
    is when this hit would reach the elimination threshold; below 2 the
    accumulator is incremented whatever the cooldown. *)
Theorem cooldown_guard_at_two s sid tgt imp target ok ty now now' :
  reg_get sid (players s) = Some imp →
  reg_get tgt (players s) = Some target →
  role imp = Some impostor → role target = Some crewmate →
  (0 < cooldownRemaining (killCooldowns s) sid now)%Z →
  (attemptSabotage sid tgt ok ty now now' s =
     (s, [(ToSocket sid,
           kill_cooldown
             (ceil_seconds (cooldownRemaining (killCooldowns s) sid now)))])
   ↔ 2 ≤ sabotageCount target) ∧
  (sabotageCount target < 2 →
   attemptSabotage sid tgt ok ty now now' s =
     (with_players
        (reg_update tgt (set_sabotageCount (S (sabotageCount target)))
                    (players s)) s,
      [(ToRoom, sabotage_attempt (name imp) (name target)
                  (S (sabotageCount target)) ok ty)])).
Proof.
  intros Himp Htgt Hri Hrt Hrem. split; [split|].
  - intros Hrej. destruct (decide (2 ≤ sabotageCount target)); [done|].
    rewrite (attemptSabotage_below _ _ _ _ _ _ _ _ _ Himp Htgt Hri Hrt) in Hrej
      by lia.
    discriminate Hrej.
  - intros Hcount. by eapply attemptSabotage_guarded.
  - intros Hcount. by eapply attemptSabotage_below.
Qed.

(** The guard at [after_two_hits]: accumulator 2, 27 seconds of cooldown left. *)
Lemma cooldown_guard_at_two_witness :
  (attemptSabotage "A" "C" true "virus" (t0 + 3000) (t0 + 3000) after_two_hits =
     (after_two_hits,
      [(ToSocket "A",
        kill_cooldown
          (ceil_seconds
             (cooldownRemaining (killCooldowns after_two_hits) "A"
                                (t0 + 3000))))])
   ↔ 2 ≤ 2) ∧
  (2 < 2 →
   attemptSabotage "A" "C" true "virus" (t0 + 3000) (t0 + 3000) after_two_hits =
     (with_players
        (reg_update "C" (set_sabotageCount 3) (players after_two_hits))
        after_two_hits,
      [(ToRoom, sabotage_attempt "Ann" "Cyd" 3 true "virus")])).
Proof.
  apply (cooldown_guard_at_two after_two_hits "A" "C"
           (mkPlayer 0 "A" "Ann" (Some impostor) true (take 3 CREWMATE_TASKS) 0
                     "#ff6b6b" blank_progress None)
           (mkPlayer 2 "C" "Cyd" (Some crewmate) true (take 3 CREWMATE_TASKS) 2
                     "#45b7d1" blank_progress None)
           true "virus" (t0 + 3000)%Z (t0 + 3000)%Z);
    vm_compute; reflexivity.
Defined.

(** ** The win evaluator *)

(** Whenever no impostor is alive, [checkGameEnd] declares the crewmates
    winners for this reason; whether an impostor was ever assigned is not
    consulted. *)
Lemma decide_winner_no_alive_impostor s :
  List.filter (λ p, isAlive p && is_role impostor p) (players s) = [] ↔
  decide_winner s = Some (crewmates_win, "All impostors eliminated").
Proof.
  unfold decide_winner. split.
  - intros H. by rewrite H.
  - destruct (List.filter _ (players s)) as [|p l]; [done|]. simpl.
    destruct (_ <=? _); [discriminate|].
    destruct (forallb _ _); [discriminate|].
    destruct (_ <=? _)%Z; discriminate.
Qed.

(** C3 (defect in the code).  In a solo round, where no impostor is ever
    assigned, the first evaluation (here after the only participant reports a
    completed task) ends the round with the crewmates winning because
    all impostors are eliminated. *)
Theorem solo_round_ends_as_impostors_eliminated :
  reachable solo ∧
  map role (players solo) = [Some crewmate] ∧
  decide_winner solo = Some (crewmates_win, "All impostors eliminated") ∧
  (handle (task_completed "A" "network" 1) solo).2 =
    [ (ToRoom, task_completed_update "A" "Ann" 1 3);
      (ToRoom, game_ended crewmates_win "All impostors eliminated"
                 [mkRoster "A" "Ann" "#ff6b6b" (Some crewmate) true 1]) ].
Proof.
  split; [|by vm_compute].
  eexists _, _. apply (exec_run solo_round initial_state).
  unfold solo_round. valid_trace_tac.
Qed.

(** ** The cooldown ledger *)

(** Along a run an entry of the ledger is kept, and its value is either the
    old one or the kill time of a later sabotage by the same connection. *)
Lemma run_killCooldowns s es s' out k t :
  run s es s' out →
  killCooldowns s !! k = Some t →
  ∃ t', killCooldowns s' !! k = Some t' ∧
        (t' = t ∨ ∃ tgt ok ty n, attempt_sabotage k tgt ok ty n t' ∈ es).
Proof.
  intros Hrun. revert t.
  induction Hrun as [|s e s1 out1 es s2 out2 Hv He _ IH]; intros t Ht.
  - exists t. auto.
  - pose proof (handle_killCooldowns e s) as Hk. rewrite He in Hk. simpl in Hk.
    destruct Hk as [Hk | (sid & tgt & ok & ty & n & n' & -> & Hk)].
    + rewrite <- Hk in Ht. destruct (IH t Ht) as (t' & Ht' & Hor).
      exists t'. split; [done|].
      destruct Hor as [->|(tgt & ok & ty & n & Hin)]; [by left|].
      right. exists tgt, ok, ty, n. by right.
    + destruct (decide (sid = k)) as [->|Hne].
      * assert (killCooldowns s1 !! k = Some n') as Hn'
          by (rewrite Hk; apply lookup_insert_eq).
        destruct (IH n' Hn') as (t' & Ht' & Hor).
        exists t'. split; [done|]. right.
        destruct Hor as [->|(tgt' & ok' & ty' & m & Hin)].
        -- exists tgt, ok, ty, n. left.
        -- exists tgt', ok', ty', m. by right.
      * assert (killCooldowns s1 !! k = Some t) as Ht1
          by (rewrite Hk, lookup_insert_ne by done; exact Ht).
        destruct (IH t Ht1) as (t' & Ht' & Hor).
        exists t'. split; [done|].
        destruct Hor as [->|(tgt' & ok' & ty' & m & Hin)]; [by left|].
        right. exists tgt', ok', ty', m. by right.
Qed.

(** C10.  No handler removes an entry of [killCooldowns]: along any run
    (round end, the lobby reset, disconnects, a new round) the entry recorded
    for [k] stays.  If the clock does not go back, the recorded time never
    decreases, it is unchanged when [k] attempts no sabotage, and in the state
    reached a sabotage by [k] that would reach the threshold is rejected with
    the cooldown notice as long as fewer than 30 seconds have passed since
    the kill recorded before the run. *)
Theorem killCooldowns_persist s es s' out k t :
  run s es s' out →
  killCooldowns s !! k = Some t →
  is_Some (killCooldowns s' !! k) ∧
  ((∀ tgt ok ty n n', attempt_sabotage k tgt ok ty n n' ∈ es → (t ≤ n')%Z) →
   ∃ t', killCooldowns s' !! k = Some t' ∧ (t ≤ t')%Z ∧
     ((∀ tgt ok ty n n', attempt_sabotage k tgt ok ty n n' ∉ es) → t' = t) ∧
     ∀ imp tgt target ok ty now now',
       reg_get k (players s') = Some imp → role imp = Some impostor →
       reg_get tgt (players s') = Some target → role target = Some crewmate →
       2 ≤ sabotageCount target →
       (now - t < 30000)%Z →
       attemptSabotage k tgt ok ty now now' s' =
         (s', [(ToSocket k,
                kill_cooldown (ceil_seconds (30000 - (now - t'))))])).
Proof.
  intros Hrun Ht.
  destruct (run_killCooldowns _ _ _ _ _ _ Hrun Ht) as (t' & Ht' & Hor).
  split; [by exists t'|]. intros Hclock. exists t'.
  assert (t ≤ t')%Z as Hle.
  { destruct Hor as [->|(tgt & ok & ty & n & Hin)]; [lia | eauto]. }
  split; [done|]. split; [done|]. split.
  - intros Hno. destruct Hor as [->|(tgt & ok & ty & n & Hin)]; [done|].
    by apply Hno in Hin.
  - intros imp tgt target ok ty now now' Himp Hri Htgt Hrt Hcount Hnow.
    assert (cooldownRemaining (killCooldowns s') k now
            = 30000 - (now - t'))%Z as Hrem
      by (unfold cooldownRemaining; by rewrite Ht').
    rewrite <- Hrem. eapply attemptSabotage_guarded; eauto.
    rewrite Hrem. lia.
Qed.

Lemma next_round_run :
  run after_kill next_round in_next_round (exec next_round after_kill).2.
Proof.
  apply (exec_run next_round after_kill).
  unfold next_round. valid_trace_tac.
Qed.

(** The kill recorded at [t0] still gates the impostor in the next round, 25
    seconds later. *)
Lemma killCooldowns_persist_witness :
  is_Some (killCooldowns in_next_round !! "A") ∧
  attemptSabotage "A" "B" true "virus" (t0 + 25000) (t0 + 25000) in_next_round =
    (in_next_round, [(ToSocket "A", kill_cooldown 5)]).
Proof.
  destruct (killCooldowns_persist after_kill next_round in_next_round
              (exec next_round after_kill).2 "A" t0
              next_round_run eq_refl) as [Hsome Hgate].
  split; [exact Hsome|].
  destruct Hgate as (t' & Ht' & _ & _ & Hrej).
  - intros tgt ok ty n n' Hin. unfold next_round in Hin.
    repeat (apply elem_of_cons in Hin as [[=]|Hin]); subst;
      try (vm_compute; discriminate).
    by apply elem_of_nil in Hin.
  - assert (t' = t0) as ->.
    { vm_compute in Ht'. injection Ht' as <-. reflexivity. }
    apply (Hrej (mkPlayer 0 "A" "Ann" (Some impostor) true
                          (take 3 CREWMATE_TASKS) 0 "#ff6b6b" blank_progress None)
                "B"
                (mkPlayer 1 "B" "Bob" (Some crewmate) true
                          (take 3 CREWMATE_TASKS) 2 "#4ecdc4" blank_progress None)
                true "virus" (t0 + 25000)%Z (t0 + 25000)%Z);
      vm_compute; reflexivity.
Defined.

(** ** Starting a round *)

Lemma startGame_players draws s :
  1 ≤ length (players s) →
  players (startGame draws s).1 =
  imap (start_player
          (if 2 <=? length (players s) then pick_impostors 1 draws [] else []))
       (players s).
Proof.
  intros Hn. unfold startGame.
  rewrite (proj2 (Nat.leb_le _ _) Hn). by destruct (2 <=? _).
Qed.

Lemma startGame_out draws s :
  1 ≤ length (players s) →
  (startGame draws s).2 =
  flat_map (notify_start (players (startGame draws s).1))
           (players (startGame draws s).1).
Proof.
  intros Hn. unfold startGame. by rewrite (proj2 (Nat.leb_le _ _) Hn).
Qed.

Lemma Forall_imap_start_player (P : player → Prop) l ps :
  (∀ i p, P (start_player l i p)) → Forall P (imap (start_player l) ps).
Proof.
  intros HP. apply Forall_forall. intros p' Hin.
  apply elem_of_lookup_imap_1 in Hin as (i & p & -> & _). apply HP.
Qed.

(** C4, the claim as stated fails: the payload saved by the crewmate is gone
    after the next [start-game], and the [restore-task-progress] message of
    that round start carries the blank record. *)
Lemma startGame_discards_saved_payload :
  (taskProgress <$> reg_get "A" (players with_save)) = Some saved_progress ∧
  (taskProgress <$> reg_get "A" (players (startGame [1] with_save).1))
    = Some blank_progress ∧
  (data ∘ task1 ∘ taskProgress <$> reg_get "A" (players (startGame [1] with_save).1))
    = Some None ∧
  List.filter (λ m, match m.2 with restore_task_progress _ => true | _ => false end)
              (startGame [1] with_save).2
    = [(ToSocket "A", restore_task_progress blank_progress)].
Proof. by vm_compute. Qed.

(** C4, as amended.  Starting a round keeps the registered identities and the
    fields fixed at join time, and resets the per-round fields of every
    participant: alive, a zero accumulator, no vote, and the whole
    task-progress record blank (counter 0, every slot incomplete with no
    payload).  The [restore-task-progress] message sent to every crewmate at
    round start carries that blank record, and no other. *)
Theorem startGame_resets draws s :
  1 ≤ length (players s) →
  Forall2 kept (players s) (players (startGame draws s).1) ∧
  Forall round_reset (players (startGame draws s).1) ∧
  (∀ p, p ∈ players (startGame draws s).1 → role p = Some crewmate →
        (ToSocket (id p), restore_task_progress blank_progress)
          ∈ (startGame draws s).2) ∧
  (∀ r tp, (r, restore_task_progress tp) ∈ (startGame draws s).2 →
           tp = blank_progress).
Proof.
  intros Hn.
  assert (Forall round_reset (players (startGame draws s).1)) as Hreset.
  { rewrite startGame_players by done.
    apply Forall_imap_start_player. intros i p. by repeat split. }
  split; [apply startGame_kept|]. split; [done|].
  rewrite startGame_out by done.
  set (ps' := players (startGame draws s).1) in *. split.
  - intros p Hin Hrole. apply list_elem_of_In, in_flat_map.
    exists p. split; [by apply list_elem_of_In|].
    unfold notify_start. rewrite (proj2 (is_role_true _ _) Hrole).
    rewrite Forall_forall in Hreset. destruct (Hreset p Hin) as (_ & _ & _ & ->).
    right. left. done.
  - intros r tp Hin. apply list_elem_of_In, in_flat_map in Hin as (p & Hp & Hin).
    apply list_elem_of_In in Hp. rewrite Forall_forall in Hreset.
    destruct (Hreset p Hp) as (_ & _ & _ & Htp).
    unfold notify_start in Hin. destruct Hin as [[=]|Hin].
    destruct (is_role crewmate p); [|done].
    destruct Hin as [[= _ <-]|[]]. done.
Qed.

(** The reset at [with_save], where a payload had been saved. *)
Lemma startGame_resets_witness :
  Forall2 kept (players with_save) (players (startGame [1] with_save).1) ∧
  Forall round_reset (players (startGame [1] with_save).1) ∧
  (∀ p, p ∈ players (startGame [1] with_save).1 → role p = Some crewmate →
        (ToSocket (id p), restore_task_progress blank_progress)
          ∈ (startGame [1] with_save).2) ∧
  (∀ r tp, (r, restore_task_progress tp) ∈ (startGame [1] with_save).2 →
           tp = blank_progress).
Proof.
  apply (startGame_resets [1] with_save). vm_compute. lia.
Defined.

(** ** Joining the lobby *)

(** C9, the claim as stated fails: B, killed in the round, sends [join-lobby]
    again; no error is raised and B's record is replaced by a fresh one, alive
    and with a zero accumulator. *)
Lemma joinLobby_overwrites_existing :
  (isAlive <$> reg_get "B" (players after_kill)) = Some false ∧
  (sabotageCount <$> reg_get "B" (players after_kill)) = Some 3 ∧
  (role <$> reg_get "B" (players after_kill)) = Some (Some crewmate) ∧
  reg_get "B" (players (joinLobby "B" "Bobby" 5 CREWMATE_TASKS after_kill).1)
    = Some (mkPlayer 4 "B" "Bobby" None true (take 3 CREWMATE_TASKS) 0
                     "#ff9ff3" blank_progress None).
Proof. by vm_compute. Qed.

(** C9, as amended.  [join-lobby] from a connection that is already
    registered raises no error: it replaces the existing record, at the same
    position of the registry, by a fresh one (new name, colour and tasks, role
    unassigned, alive, zero accumulator, blank task progress, no vote), leaves
    every other record as it is, and broadcasts the roster. *)
Theorem joinLobby_replaces s sid playerName colorIndex shuffled old :
  reg_get sid (players s) = Some old →
  reg_get sid (players (joinLobby sid playerName colorIndex shuffled s).1)
    = Some (fresh_player s sid playerName colorIndex shuffled) ∧
  map id (players (joinLobby sid playerName colorIndex shuffled s).1)
    = map id (players s) ∧
  (∀ k, k ≠ sid →
        reg_get k (players (joinLobby sid playerName colorIndex shuffled s).1)
        = reg_get k (players s)) ∧
  (joinLobby sid playerName colorIndex shuffled s).2
    = [(ToRoom,
        player_list_update
          (players (joinLobby sid playerName colorIndex shuffled s).1))].
Proof.
  intros Hold. unfold joinLobby. simpl.
  fold (fresh_player s sid playerName colorIndex shuffled).
  split; [|split; [|split]].
  - rewrite reg_get_set. simpl. by rewrite decide_True.
  - rewrite reg_set_ids. simpl. rewrite bool_decide_eq_true_2; [done|].
    apply dec_stable. intros Hnot. apply reg_get_None in Hnot. congruence.
  - intros k Hk. rewrite reg_get_set. simpl. by rewrite decide_False.
  - done.
Qed.

(** The second [join-lobby] of B at [after_kill]. *)
Lemma joinLobby_replaces_witness :
  reg_get "B" (players (joinLobby "B" "Bobby" 5 CREWMATE_TASKS after_kill).1)
    = Some (fresh_player after_kill "B" "Bobby" 5 CREWMATE_TASKS) ∧
  map id (players (joinLobby "B" "Bobby" 5 CREWMATE_TASKS after_kill).1)
    = map id (players after_kill) ∧
  (∀ k, k ≠ "B" →
        reg_get k (players (joinLobby "B" "Bobby" 5 CREWMATE_TASKS after_kill).1)
        = reg_get k (players after_kill)) ∧
  (joinLobby "B" "Bobby" 5 CREWMATE_TASKS after_kill).2
    = [(ToRoom,
        player_list_update
          (players (joinLobby "B" "Bobby" 5 CREWMATE_TASKS after_kill).1))].
Proof.
  apply (joinLobby_replaces after_kill "B" "Bobby" 5 CREWMATE_TASKS
           (mkPlayer 1 "B" "Bob" (Some crewmate) false (take 3 CREWMATE_TASKS) 3
                     "#4ecdc4" blank_progress None)).
  vm_compute. reflexivity.
Defined.

(** ** Role assignment *)

Lemma pick_impostors_one r rest : pick_impostors 1 (r :: rest) [] = [r].
Proof. by destruct rest. Qed.

Lemma is_role_start_player r i p :
  is_role impostor (start_player [r] i p) = bool_decide (i = r).
Proof.
  unfold is_role. simpl. apply bool_decide_ext.
  rewrite <- (list_elem_of_singleton i r).
  case_bool_decide; split; done.
Qed.

(** With the single index [r], the players at positions [k, k+1, ...] get
    one impostor exactly when [r] is among the positions. *)
Lemma impostors_of_index r ps k :
  length (List.filter (is_role impostor)
            (imap (λ i, start_player [r] (k + i)) ps))
  = if bool_decide (k ≤ r < k + length ps) then 1 else 0.
Proof.
  revert k. induction ps as [|p ps IH]; intros k; simpl.
  - rewrite bool_decide_eq_false_2 by lia. done.
  - rewrite (imap_ext _ (λ i, start_player [r] (S k + i))); last first.
    { intros i x _. simpl. f_equal. lia. }
    rewrite is_role_start_player, Nat.add_0_r.
    case_bool_decide as Hk; cbn [length]; rewrite IH.
    + subst k. rewrite bool_decide_eq_false_2 by lia.
      rewrite bool_decide_eq_true_2 by lia. done.
    + rewrite (bool_decide_ext (S k ≤ r < S k + length ps)
                               (k ≤ r < k + S (length ps))) by lia.
      done.
Qed.

Lemma no_impostor_without_index ps :
  List.filter (is_role impostor) (imap (start_player []) ps) = [].
Proof.
  assert (∀ f : nat → nat,
    List.filter (is_role impostor) (imap (λ i, start_player [] (f i)) ps) = [])
    as H.
  { induction ps as [|p ps IH]; intros f; simpl; [done|].
    specialize (IH (f ∘ S)). unfold compose in *. rewrite IH.
    unfold is_role. simpl. done. }
  apply (H (λ i, i)).
Qed.

(** C7.  For every number N ≥ 1 of registered participants of a reachable
    state, [start-game] assigns the role impostor to exactly one participant
    when N ≥ 2 and to none when N = 1, every other participant is crewmate,
    and every participant holds exactly 3 distinct tasks of the catalog. *)
Theorem startGame_roles_and_tasks s sid draws :
  reachable s →
  1 ≤ length (players s) →
  valid_event s (start_game sid draws) →
  length (players (startGame draws s).1) = length (players s) ∧
  length (List.filter (is_role impostor) (players (startGame draws s).1))
    = (if 2 <=? length (players s) then 1 else 0) ∧
  Forall (λ p, role p = Some impostor ∨ role p = Some crewmate)
         (players (startGame draws s).1) ∧
  Forall (λ p, length (tasks p) = 3 ∧ NoDup (tasks p) ∧
               tasks p ⊆ CREWMATE_TASKS)
         (players (startGame draws s).1).
Proof.
  intros Hreach Hn Hvalid.
  pose proof (startGame_kept draws s) as Hkept.
  split; [|split; [|split]].
  - symmetry. by eapply Forall2_length.
  - rewrite startGame_players by done. simpl in Hvalid.
    destruct (2 <=? length (players s)) eqn:H2.
    + apply Nat.leb_le in H2.
      destruct (Hvalid H2) as (r & rest & -> & Hr).
      rewrite pick_impostors_one.
      etrans; [exact (impostors_of_index r (players s) 0)|].
      rewrite bool_decide_eq_true_2 by lia. done.
    + by rewrite no_impostor_without_index.
  - rewrite startGame_players by done.
    apply Forall_imap_start_player. intros i p. simpl.
    case_bool_decide; auto.
  - destruct (reachable_inv s Hreach) as [_ Htasks].
    rewrite <- (Forall2_kept_tasks _ _ Hkept) in Htasks.
    change (Forall (tasks_ok ∘ tasks) (players (startGame draws s).1)).
    apply Forall_fmap. exact Htasks.
Qed.

(** A round started from [after_kill], with the third participant drawn. *)
Lemma startGame_roles_and_tasks_witness :
  length (players (startGame [2] after_kill).1) = length (players after_kill) ∧
  length (List.filter (is_role impostor) (players (startGame [2] after_kill).1))
    = (if 2 <=? length (players after_kill) then 1 else 0) ∧
  Forall (λ p, role p = Some impostor ∨ role p = Some crewmate)
         (players (startGame [2] after_kill).1) ∧
  Forall (λ p, length (tasks p) = 3 ∧ NoDup (tasks p) ∧
               tasks p ⊆ CREWMATE_TASKS)
         (players (startGame [2] after_kill).1).
Proof.
  apply (startGame_roles_and_tasks after_kill "C" [2]).
  - apply after_kill_reachable.
  - vm_compute. lia.
  - intros _. exists 2, []. split; [reflexivity | vm_compute; lia].
Defined.

(** ** Vote resolution: the tally *)

Lemma votes_get_bump k k' votes :
  votes_get k' (bump k votes) =
  if decide (k = k') then
    match votes_get k' votes with
    | Some v => Some (plus_one v)
    | None => tallied k 1
    end
  else votes_get k' votes.
Proof.
  induction votes as [|[k0 v0] votes IH]; simpl.
  - unfold tallied. destruct (decide (k = "__proto__")); simpl.
    + by destruct (decide (k = k')).
    + destruct (inherited k); simpl; by destruct (decide (k = k')).
  - destruct (decide (k0 = k)) as [->|Hne]; simpl.
    + by destruct (decide (k = k')).
    + rewrite IH.
      destruct (decide (k0 = k')) as [->|]; destruct (decide (k = k'));
        try done; congruence.
Qed.

Lemma bump_keys k votes :
  map fst (bump k votes) =
  if bool_decide (k ∈ map fst votes) then map fst votes
  else if decide (k = "__proto__") then map fst votes
  else map fst votes ++ [k].
Proof.
  induction votes as [|[k0 v0] votes IH]; simpl.
  - destruct (decide (k = "__proto__")); [done|]. by destruct (inherited k).
  - destruct (decide (k0 = k)) as [->|Hne]; simpl.
    + rewrite bool_decide_eq_true_2 by left. done.
    + rewrite IH. destruct (bool_decide (k ∈ map fst votes)) eqn:B.
      * apply bool_decide_eq_true in B.
        rewrite bool_decide_eq_true_2 by (by right). done.
      * apply bool_decide_eq_false in B.
        rewrite bool_decide_eq_false_2.
        -- by destruct (decide (k = "__proto__")).
        -- rewrite not_elem_of_cons. split; [congruence | done].
Qed.

Lemma bump_NoDup k votes :
  NoDup (map fst votes) → NoDup (map fst (bump k votes)).
Proof.
  intros Hnd. rewrite bump_keys. case_bool_decide as Hin; [done|].
  destruct (decide (k = "__proto__")); [done|].
  apply NoDup_app. repeat split; [done| |apply NoDup_singleton].
  intros x Hx ->%list_elem_of_singleton. done.
Qed.

Lemma votes_get_elem k v votes :
  NoDup (map fst votes) → ((k, v) ∈ votes ↔ votes_get k votes = Some v).
Proof.
  induction votes as [|[k0 v0] votes IH]; simpl; intros Hnd.
  - split; [by intros ?%elem_of_nil | done].
  - apply NoDup_cons in Hnd as [Hk0 Hnd].
    rewrite elem_of_cons, (IH Hnd).
    destruct (decide (k0 = k)) as [->|Hne].
    + split.
      * intros [[= ->]|Hget]; [done|].
        exfalso. apply Hk0. apply (IH Hnd) in Hget.
        by apply (list_elem_of_fmap_2 fst) in Hget.
      * intros [= ->]. by left.
    + split.
      * intros [[= -> ->]|H]; [done | done].
      * intros H. by right.
Qed.

Lemma tally_fst_snoc ps p :
  (tally (ps ++ [p])).1 =
  match vote p with Some v => bump v (tally ps).1 | None => (tally ps).1 end.
Proof.
  unfold tally. rewrite fold_left_app. simpl. unfold tally_step at 1.
  by destruct (vote p).
Qed.

Lemma count_votes_snoc t ps p :
  count_votes t (ps ++ [p]) =
  count_votes t ps + (if bool_decide (vote p = Some t) then 1 else 0).
Proof.
  unfold count_votes. rewrite List.filter_app, length_app. simpl.
  by destruct (bool_decide _).
Qed.

Lemma tallied_succ t n :
  match tallied t n with
  | Some v => Some (plus_one v)
  | None => tallied t 1
  end = tallied t (n + 1).
Proof.
  unfold tallied. destruct (decide (t = "__proto__")); [done|].
  destruct n as [|n]; simpl; [done|]. by destruct (inherited t).
Qed.

(** The tally object has one property per target other than [__proto__]
    that has a ballot, and it holds the number of these ballots, as a count
    or as the length of a text. *)
Lemma tally_votes ps :
  NoDup (map fst (tally ps).1) ∧
  ∀ t, votes_get t (tally ps).1 = tallied t (count_votes t ps).
Proof.
  induction ps as [|p ps [Hnd Hget]] using rev_ind.
  - split; [constructor|]. intros t. unfold tallied. simpl.
    by destruct (decide (t = "__proto__")).
  - rewrite tally_fst_snoc. destruct (vote p) as [v|] eqn:Hv.
    + split; [by apply bump_NoDup|]. intros t.
      rewrite votes_get_bump, count_votes_snoc, Hget, Hv.
      destruct (decide (v = t)) as [->|Hne].
      * rewrite bool_decide_eq_true_2 by done. apply tallied_succ.
      * rewrite bool_decide_eq_false_2 by congruence.
        by rewrite Nat.add_0_r.
    + split; [done|]. intros t. rewrite count_votes_snoc, Hget, Hv.
      rewrite bool_decide_eq_false_2 by done. by rewrite Nat.add_0_r.
Qed.

Lemma tally_votes_elem ps k v :
  (k, v) ∈ (tally ps).1 ↔ tallied k (count_votes k ps) = Some v.
Proof.
  destruct (tally_votes ps) as [Hnd Hget].
  by rewrite (votes_get_elem _ _ _ Hnd), Hget.
Qed.

(** The counts of the tally object: the targets that are not names of
    inherited members, each with the number of its ballots. *)
Lemma tally_count_elem ps k n :
  (k, tally_count n) ∈ (tally ps).1 ↔
  inherited k = false ∧ n = count_votes k ps ∧ 0 < n.
Proof.
  rewrite tally_votes_elem. unfold tallied.
  destruct (decide (k = "__proto__")) as [->|Hk].
  { split; [done | by intros [? _]]. }
  destruct (count_votes k ps) as [|c].
  { split; [done | intros (_ & -> & ?); lia]. }
  destruct (inherited k).
  - split; [done | by intros [? _]].
  - split.
    + intros [= <-]. split; [done|]. split; [done | lia].
    + by intros (_ & -> & _).
Qed.

Lemma tally_wf ps : votes_wf (tally ps).1.
Proof.
  split; [apply tally_votes|]. apply Forall_forall. intros [k v] Hin.
  destruct v as [n|]; [|done]. simpl.
  by apply tally_count_elem in Hin as (_ & _ & Hn).
Qed.

(** ** Vote resolution: the enumeration of the tally *)

Lemma insert_index_perm {A} i (e : A) sorted :
  insert_index i e sorted ≡ₚ (i, e) :: sorted.
Proof.
  induction sorted as [|[j e'] sorted IH]; simpl; [done|].
  destruct (i <? j)%N; [done|]. rewrite IH. apply Permutation_swap.
Qed.

Lemma index_entries_perm {A} (props : list (ident * A)) :
  map snd (index_entries props)
  ≡ₚ List.filter (λ e, negb (bool_decide (array_index e.1 = None))) props.
Proof.
  induction props as [|e props IH]; simpl; [done|].
  destruct (array_index e.1) as [i|] eqn:Hi; simpl.
  - rewrite insert_index_perm. simpl. by rewrite IH.
  - exact IH.
Qed.

Lemma filter_split_perm {A} (f : A → bool) l :
  List.filter (λ x, negb (f x)) l ++ List.filter f l ≡ₚ l.
Proof.
  induction l as [|x l IH]; simpl; [done|].
  destruct (f x); simpl.
  - rewrite <- Permutation_middle. by rewrite IH.
  - by rewrite IH.
Qed.

(** [Object.entries] lists every property once. *)
Lemma Object_entries_perm {A} (props : list (ident * A)) :
  Object_entries props ≡ₚ props.
Proof.
  unfold Object_entries. rewrite index_entries_perm.
  apply (filter_split_perm (λ e, bool_decide (array_index e.1 = None))).
Qed.

(** ** Vote resolution: the scan for the maximum *)

Lemma scan_snoc votes e : scan (votes ++ [e]) = scan_step (scan votes) e.
Proof. unfold scan. by rewrite fold_left_app. Qed.

Lemma votes_wf_snoc votes k v :
  votes_wf (votes ++ [(k, v)]) →
  votes_wf votes ∧ (k ∉ map fst votes) ∧
  match v with tally_count n => 0 < n | tally_text _ => True end.
Proof.
  intros [Hnd Hpos]. rewrite map_app in Hnd. simpl in Hnd.
  apply NoDup_app in Hnd as (Hnd & Hk & _).
  apply Forall_app in Hpos as [Hpos Hn]. rewrite Forall_singleton in Hn.
  simpl in Hn. split; [by split|]. split; [|done].
  intros Hin. apply (Hk k Hin). left.
Qed.

Lemma votes_wf_perm votes votes' :
  Permutation votes votes' → votes_wf votes → votes_wf votes'.
Proof.
  intros Hperm [Hnd Hpos]. split.
  - by rewrite <- Hperm.
  - by rewrite <- Hperm.
Qed.

Lemma scan_post_same votes votes' st :
  (∀ k n, (k, tally_count n) ∈ votes ↔ (k, tally_count n) ∈ votes') →
  scan_post votes st → scan_post votes' st.
Proof.
  intros Hsame (Hle & Hzero & Hpos & Htie).
  split; [|split; [done|split]].
  - intros k n Hin. apply Hsame in Hin. eauto.
  - intros H. destruct (Hpos H) as (k & Hej & Hin). exists k.
    split; [done | by apply Hsame].
  - rewrite Htie. split; intros (k1 & k2 & Hne & H1 & H2); exists k1, k2;
      (split; [done|]); split; by apply Hsame.
Qed.

Lemma elem_of_snoc_count (votes : list (ident * tally_value)) k v k' n :
  (k', tally_count n) ∈ votes ++ [(k, v)] ↔
  (k', tally_count n) ∈ votes ∨ (k' = k ∧ v = tally_count n).
Proof.
  rewrite elem_of_app, list_elem_of_singleton.
  split; (intros [?|H]; [by left|right]).
  - by injection H as -> ->.
  - by destruct H as [-> ->].
Qed.

Lemma scan_spec votes : votes_wf votes → scan_post votes (scan votes).
Proof.
  induction votes as [|[k v] votes IH] using rev_ind; intros Hwf.
  - repeat split; try done.
    + intros k n Hin. by apply elem_of_nil in Hin.
    + simpl. lia.
    + intros (k1 & k2 & _ & Hin & _). by apply elem_of_nil in Hin.
  - apply votes_wf_snoc in Hwf as (Hwf & Hk & Hn).
    destruct (IH Hwf) as (Hmax & Hzero & Hcons & Htie). clear IH.
    rewrite scan_snoc. set (st := scan votes) in *.
    assert (∀ k' w, (k', w) ∈ votes → k' ≠ k) as Hfresh.
    { intros k' w Hin ->. apply Hk.
      by apply (list_elem_of_fmap_2 fst) in Hin. }
    unfold scan_step. destruct v as [n|ones].
    2:{ (* a text: the locals are unchanged *)
      apply (scan_post_same votes); [|done].
      intros k' n. rewrite elem_of_snoc_count.
      split; [by left|]. by intros [?|[_ ?]]. }
    destruct (maxVotes st <? n) eqn:Hlt; [apply Nat.ltb_lt in Hlt|
      apply Nat.ltb_ge in Hlt;
      destruct ((n =? maxVotes st) && (0 <? maxVotes st)) eqn:Heq].
    + (* a new maximum *)
      split; [|split; [|split]]; simpl.
      * intros k' m [Hin|[_ [= <-]]]%elem_of_snoc_count; [|done].
        apply Hmax in Hin. lia.
      * intros ->. lia.
      * intros _. exists k. split; [done|].
        apply elem_of_app. right. left.
      * split; [done|]. intros (k1 & k2 & Hne & Hin1 & Hin2). exfalso.
        apply elem_of_snoc_count in Hin1 as [Hin1| [-> _]];
          [apply Hmax in Hin1; lia|].
        apply elem_of_snoc_count in Hin2 as [Hin2| [-> _]];
          [apply Hmax in Hin2; lia|].
        done.
    + (* the maximum is met again *)
      apply andb_true_iff in Heq as [Heq Hpos].
      apply Nat.eqb_eq in Heq as ->. apply Nat.ltb_lt in Hpos.
      destruct (Hcons Hpos) as (k0 & Hej & Hin0).
      split; [|split; [|split]]; simpl.
      * intros k' m [Hin|[_ [= <-]]]%elem_of_snoc_count; [eauto | done].
      * intros H0. rewrite H0 in Hpos. lia.
      * intros _. exists k0. split; [done|].
        apply elem_of_app. by left.
      * split; [|done]. intros _. exists k0, k.
        split; [by eapply Hfresh|].
        split; apply elem_of_app; [by left | right; left].
    + (* below the maximum *)
      assert (n < maxVotes st) as Hbelow.
      { apply andb_false_iff in Heq as [Heq|Heq].
        - apply Nat.eqb_neq in Heq. lia.
        - apply Nat.ltb_ge in Heq. lia. }
      split; [|split; [done|split]].
      * intros k' m [Hin|[_ [= <-]]]%elem_of_snoc_count; [eauto | lia].
      * intros Hpos. destruct (Hcons Hpos) as (k0 & Hej & Hin0).
        exists k0. split; [done|]. apply elem_of_app. by left.
      * rewrite Htie. split.
        -- intros (k1 & k2 & Hne12 & Hin1 & Hin2). exists k1, k2.
           split; [done|]. split; apply elem_of_app; by left.
        -- intros (k1 & k2 & Hne12 & Hin1 & Hin2). exists k1, k2.
           split; [done|].
           apply elem_of_snoc_count in Hin1 as [Hin1|[_ [= Hn1]]]; [|lia].
           apply elem_of_snoc_count in Hin2 as [Hin2|[_ [= Hn2]]]; [|lia].
           done.
Qed.

Example scan_examples :
  scan [("C", tally_count 2); ("A", tally_count 1)] = mkScan 2 (Some "C") false ∧
  scan [("C", tally_count 2); ("D", tally_count 2)] = mkScan 2 (Some "C") true ∧
  scan [("A", tally_count 1); ("C", tally_count 1); ("D", tally_count 2)]
    = mkScan 2 (Some "D") false ∧
  scan [("toString", tally_text 2); ("C", tally_count 1)]
    = mkScan 1 (Some "C") false ∧
  scan [] = mkScan 0 None false.
Proof. done. Qed.

Example Object_entries_examples :
  Object_entries [("C", tally_count 1); ("10", tally_count 1);
                  ("2", tally_count 2); ("01", tally_count 1)]
    = [("2", tally_count 2); ("10", tally_count 1);
       ("C", tally_count 1); ("01", tally_count 1)] ∧
  bump "__proto__" [("C", tally_count 1)] = [("C", tally_count 1)] ∧
  bump "constructor" [("C", tally_count 1)]
    = [("C", tally_count 1); ("constructor", tally_text 1)] ∧
  bump "C" [("C", tally_count 1)] = [("C", tally_count 2)].
Proof. done. Qed.

(** The scan of [processVotes], over the enumeration of the tally. *)
Lemma scan_entries ps :
  scan_post (tally ps).1 (scan (Object_entries (tally ps).1)).
Proof.
  apply (scan_post_same (Object_entries (tally ps).1)).
  - intros k n. by rewrite Object_entries_perm.
  - apply scan_spec. eapply votes_wf_perm; [|apply tally_wf].
    symmetry. apply Object_entries_perm.
Qed.

Lemma scan_unique ps t :
  inherited t = false →
  0 < count_votes t ps →
  (∀ u, u ≠ t → inherited u = false → count_votes u ps < count_votes t ps) →
  scan (Object_entries (tally ps).1) = mkScan (count_votes t ps) (Some t) false.
Proof.
  intros Ht Hpos Hmax.
  destruct (scan_entries ps) as (Hle & _ & Hcons & Htie).
  assert ((t, tally_count (count_votes t ps)) ∈ (tally ps).1) as Hin
    by by apply tally_count_elem.
  pose proof (Hle _ _ Hin) as Hle_t.
  destruct (Hcons ltac:(lia)) as (k & Hej & Hk).
  apply tally_count_elem in Hk as (Hk_plain & Hk & _).
  assert (k = t) as ->.
  { destruct (decide (k = t)) as [|Hkt]; [done|].
    specialize (Hmax k Hkt Hk_plain). lia. }
  destruct (scan _) as [m e ti]. simpl in *. subst m e.
  f_equal. destruct ti; [|done]. exfalso.
  destruct (proj1 Htie eq_refl)
    as (k1 & k2 & Hne12 & (Hp1 & H1 & _)%tally_count_elem
        & (Hp2 & H2 & _)%tally_count_elem).
  destruct (decide (k1 = t)) as [->|Hk1].
  - assert (k2 ≠ t) as Hk2 by congruence. specialize (Hmax k2 Hk2 Hp2). lia.
  - specialize (Hmax k1 Hk1 Hp1). lia.
Qed.

Lemma scan_tie ps t1 t2 :
  t1 ≠ t2 → inherited t1 = false → inherited t2 = false →
  0 < count_votes t1 ps →
  count_votes t1 ps = count_votes t2 ps →
  (∀ u, inherited u = false → count_votes u ps ≤ count_votes t1 ps) →
  maxVotes (scan (Object_entries (tally ps).1)) = count_votes t1 ps ∧
  tie (scan (Object_entries (tally ps).1)) = true.
Proof.
  intros Hne Hp1 Hp2 Hpos Heq Hmax.
  destruct (scan_entries ps) as (Hle & _ & Hcons & Htie).
  assert ((t1, tally_count (count_votes t1 ps)) ∈ (tally ps).1) as Hin1
    by by apply tally_count_elem.
  assert ((t2, tally_count (count_votes t1 ps)) ∈ (tally ps).1) as Hin2
    by (apply tally_count_elem; split; [done|]; split; [done | lia]).
  pose proof (Hle _ _ Hin1) as Hle1.
  destruct (Hcons ltac:(lia)) as (k & _ & (Hpk & Hk & _)%tally_count_elem).
  pose proof (Hmax k Hpk).
  assert (maxVotes (scan (Object_entries (tally ps).1)) = count_votes t1 ps)
    as Hm by lia.
  split; [done|]. apply Htie. exists t1, t2. rewrite Hm. done.
Qed.

Lemma scan_no_votes ps :
  (∀ u, count_votes u ps = 0) → (tally ps).1 = [].
Proof.
  intros Hnone. destruct (tally ps).1 as [|[k v] votes] eqn:Hv; [done|].
  assert ((k, v) ∈ (tally ps).1) as Hin by (rewrite Hv; left).
  apply tally_votes_elem in Hin. rewrite Hnone in Hin. unfold tallied in Hin.
  by destruct (decide (k = "__proto__")).
Qed.

(** ** Vote resolution: the outcomes of [processVotes] *)

(** A target with strictly the most ballots: ejected when registered;
    otherwise nothing is emitted at all.  Ballots that name an inherited
    member take no part. *)
Lemma processVotes_unique s t :
  t ≠ "" →
  inherited t = false →
  0 < count_votes t (players s) →
  (∀ u, u ≠ t → inherited u = false →
        count_votes u (players s) < count_votes t (players s)) →
  processVotes s =
  match reg_get t (players s) with
  | Some ejectedPlayer =>
      let r := checkGameEnd
                 (with_players (reg_update t (set_isAlive false) (players s)) s) in
      (with_players (clear_votes (players r.1)) r.1,
       (ToRoom, player_ejected (id ejectedPlayer) (name ejectedPlayer)
                  (role ejectedPlayer) (tally (players s)).1 (tally (players s)).2)
       :: r.2)
  | None => (with_players (clear_votes (players s)) s, [])
  end.
Proof.
  intros Ht Hplain Hpos Hmax. unfold processVotes.
  pose proof (scan_unique _ _ Hplain Hpos Hmax) as Hscan.
  destruct (tally (players s)) as [votes voters]. simpl in Hscan.
  rewrite Hscan. simpl.
  assert (negb (String.eqb t "") = true) as ->.
  { apply negb_true_iff, String.eqb_neq. done. }
  rewrite (proj2 (Nat.ltb_lt _ _) Hpos). simpl.
  destruct (reg_get t (players s)); [|done].
  by destruct (checkGameEnd _).
Qed.

(** Two targets share the maximum: nobody is ejected. *)
Lemma processVotes_tie s t1 t2 :
  t1 ≠ t2 → inherited t1 = false → inherited t2 = false →
  0 < count_votes t1 (players s) →
  count_votes t1 (players s) = count_votes t2 (players s) →
  (∀ u, inherited u = false →
        count_votes u (players s) ≤ count_votes t1 (players s)) →
  processVotes s =
  (with_players (clear_votes (players s)) s,
   [(ToRoom, no_one_ejected true (tally (players s)).1)]).
Proof.
  intros Hne Hp1 Hp2 Hpos Heq Hmax. unfold processVotes.
  destruct (scan_tie _ _ _ Hne Hp1 Hp2 Hpos Heq Hmax) as [_ Htie].
  destruct (tally (players s)) as [votes voters]. simpl in Htie.
  by rewrite Htie, andb_false_r.
Qed.

(** No ballot at all: nobody is ejected and there is no tie. *)
Lemma processVotes_no_votes s :
  (∀ u, count_votes u (players s) = 0) →
  processVotes s =
  (with_players (clear_votes (players s)) s, [(ToRoom, no_one_ejected false [])]).
Proof.
  intros Hnone. unfold processVotes.
  pose proof (scan_no_votes _ Hnone) as Hnil.
  destruct (tally (players s)) as [votes voters]. simpl in Hnil. by subst.
Qed.

Lemma assign_fresh k v voters :
  k ≠ "__proto__" → k ∉ map fst voters →
  assign k v voters = voters ++ [(k, v)].
Proof.
  intros Hk. induction voters as [|[k0 v0] voters IH]; simpl.
  - intros _. by rewrite decide_False.
  - rewrite not_elem_of_cons. intros [Hne Hin].
    rewrite decide_False by congruence. by rewrite IH.
Qed.

Lemma assign_proto v voters :
  "__proto__" ∉ map fst voters → assign "__proto__" v voters = voters.
Proof.
  induction voters as [|[k0 v0] voters IH]; simpl; [done|].
  rewrite not_elem_of_cons. intros [Hne Hin].
  rewrite decide_False by congruence. by rewrite IH.
Qed.

Lemma voters_of_keys ps k :
  k ∈ map fst (voters_of ps) → k ≠ "__proto__" ∧ k ∈ map id ps.
Proof.
  intros Hin. apply list_elem_of_fmap in Hin as ([k' w] & Hk & Hin).
  apply list_elem_of_omap in Hin as (q & Hq & Heq). simpl in Hk. subst k'.
  destruct (decide (id q = "__proto__")); [done|].
  destruct (vote q); [|done]. injection Heq as <- _.
  split; [done | by apply list_elem_of_fmap_2].
Qed.

(** Under unique identities the [voters] object lists every non-null vote
    under its voter, in registry order. *)
Lemma tally_voters ps :
  NoDup (map id ps) → (tally ps).2 = voters_of ps.
Proof.
  induction ps as [|p ps IH] using rev_ind; intros Hnd; [done|].
  rewrite map_app in Hnd. apply NoDup_app in Hnd as (Hnd & Hfresh & _).
  unfold tally, voters_of in *. rewrite fold_left_app, omap_app. simpl.
  unfold tally_step at 1. destruct (vote p) as [v|] eqn:Hv; simpl.
  - rewrite (IH Hnd). destruct (decide (id p = "__proto__")) as [Hp|Hp]; simpl.
    + rewrite app_nil_r, Hp. apply assign_proto.
      intros Hin. by apply (voters_of_keys ps) in Hin as [? _].
    + rewrite assign_fresh; [done|done|].
      intros Hin. apply (voters_of_keys ps) in Hin as [_ Hin].
      apply (Hfresh (id p) Hin). left.
  - destruct (decide (id p = "__proto__")); simpl; rewrite app_nil_r; auto.
Qed.

Lemma wf_registry_key ps t p :
  wf_registry ps → reg_get t ps = Some p → t ≠ "".
Proof.
  intros [_ Hemp] Hp ->. apply Hemp.
  apply reg_get_elem in Hp as Hin. apply reg_get_id in Hp.
  apply (list_elem_of_fmap_2 id) in Hin. rewrite Hp in Hin. exact Hin.
Qed.

Lemma processVotes_alive_unique s t p :
  wf_registry (players s) →
  reg_get t (players s) = Some p →
  inherited t = false →
  0 < count_votes t (players s) →
  (∀ u, u ≠ t → inherited u = false →
        count_votes u (players s) < count_votes t (players s)) →
  map isAlive (players (processVotes s).1)
  = map (λ q, if decide (id q = t) then false else isAlive q) (players s).
Proof.
  intros [Hnd Hemp] Hp Hplain Hpos Hmax.
  assert (t ≠ "") as Ht by (by eapply wf_registry_key; [split|]).
  rewrite (processVotes_unique s t Ht Hplain Hpos Hmax), Hp. simpl.
  rewrite checkGameEnd_players. simpl.
  rewrite (reg_update_map _ _ _ Hnd). unfold clear_votes.
  rewrite !map_map. apply map_ext. intros q. simpl.
  by destruct (decide (id q = t)).
Qed.

(** X21.  Vote resolution over targets that are not names of members
    inherited from [Object.prototype].  The counts of the tally object are
    those of these targets: each one that has a ballot, with the number of
    its ballots.  The per-voter object holds every non-null vote under its
    voter, in registry order (a voter named [__proto__] apart).  If one such
    target is registered and has strictly more ballots than every other such
    target, exactly that participant's alive flag is set to false and a
    player-ejected event with its identity, name, role, the tally and the
    per-voter object is broadcast (followed by what the win evaluator emits).
    If two such targets share the highest count, above zero, no alive flag
    changes and the only event is no-one-ejected with tie = true. *)
Theorem processVotes_resolution s :
  wf_registry (players s) →
  (∀ k n, (k, tally_count n) ∈ (tally (players s)).1 ↔
          inherited k = false ∧ n = count_votes k (players s) ∧ 0 < n) ∧
  (tally (players s)).2 = voters_of (players s) ∧
  (∀ t p,
     reg_get t (players s) = Some p →
     inherited t = false →
     0 < count_votes t (players s) →
     (∀ u, u ≠ t → inherited u = false →
           count_votes u (players s) < count_votes t (players s)) →
     map isAlive (players (processVotes s).1)
       = map (λ q, if decide (id q = t) then false else isAlive q) (players s) ∧
     (processVotes s).2 =
       (ToRoom, player_ejected t (name p) (role p)
                  (tally (players s)).1 (tally (players s)).2)
       :: (checkGameEnd
             (with_players (reg_update t (set_isAlive false) (players s)) s)).2) ∧
  (∀ t1 t2,
     t1 ≠ t2 → inherited t1 = false → inherited t2 = false →
     0 < count_votes t1 (players s) →
     count_votes t1 (players s) = count_votes t2 (players s) →
     (∀ u, inherited u = false →
           count_votes u (players s) ≤ count_votes t1 (players s)) →
     map isAlive (players (processVotes s).1) = map isAlive (players s) ∧
     (processVotes s).2 = [(ToRoom, no_one_ejected true (tally (players s)).1)]).
Proof.
  intros Hwf. split; [|split; [|split]].
  - intros k n. apply tally_count_elem.
  - apply tally_voters, Hwf.
  - intros t p Hp Hplain Hpos Hmax.
    split; [by eapply processVotes_alive_unique|].
    assert (t ≠ "") as Ht by by eapply wf_registry_key.
    rewrite (processVotes_unique s t Ht Hplain Hpos Hmax), Hp. simpl.
    by rewrite (reg_get_id _ _ _ Hp).
  - intros t1 t2 Hne Hp1 Hp2 Hpos Heq Hmax.
    rewrite (processVotes_tie s t1 t2 Hne Hp1 Hp2 Hpos Heq Hmax). simpl.
    split; [|done]. unfold clear_votes. rewrite map_map. by apply map_ext.
Qed.

(** Decides a bound on [count_votes] over a closed registry. *)
Ltac count_votes_tac :=
  intros; unfold count_votes; vm_compute players; simpl;
  repeat case_bool_decide; simplify_eq; simpl; lia.

Lemma wf_registry_two_votes ps :
  map id ps = ["A"; "B"; "C"; "D"] → wf_registry ps.
Proof.
  intros H. unfold wf_registry. rewrite H.
  split; by apply (bool_decide_unpack _).
Qed.

(** Resolution at [majority_vote] (C is ejected) and at [split_vote] (two
    ballots against two: nobody is ejected). *)
Lemma processVotes_resolution_witness :
  (map isAlive (players (processVotes majority_vote).1)
     = [true; true; false; true] ∧
   (processVotes majority_vote).2
     = [(ToRoom, player_ejected "C" "Cyd" (Some crewmate)
                   [("C", tally_count 2); ("A", tally_count 1)]
                   [("A", "C"); ("B", "C"); ("C", "A")])]) ∧
  (map isAlive (players (processVotes split_vote).1)
     = [true; true; true; true] ∧
   (processVotes split_vote).2
     = [(ToRoom, no_one_ejected true
                   [("C", tally_count 2); ("D", tally_count 2)])]).
Proof.
  split.
  - destruct (processVotes_resolution majority_vote
                (wf_registry_two_votes (players majority_vote) eq_refl))
      as (_ & _ & Heject & _).
    apply (Heject "C"
             (mkPlayer 2 "C" "Cyd" (Some crewmate) true (take 3 CREWMATE_TASKS) 0
                       "#45b7d1" blank_progress (Some "A"))).
    + reflexivity.
    + reflexivity.
    + count_votes_tac.
    + count_votes_tac.
  - destruct (processVotes_resolution split_vote
                (wf_registry_two_votes (players split_vote) eq_refl))
      as (_ & _ & _ & Htie).
    apply (Htie "C" "D").
    + discriminate.
    + reflexivity.
    + reflexivity.
    + count_votes_tac.
    + count_votes_tac.
    + count_votes_tac.
Defined.

(** The last of four ballots, two against two: the handler resolves at once
    and nobody is ejected. *)
Example split_vote_ejects_nobody :
  let s := (exec (meeting ++ [submit_vote "C" (Some "D")]) initial_state).1 in
  (handle (submit_vote "D" (Some "D")) s).2
    = [ (ToRoom, vote_submitted "D" "Dee");
        (ToRoom, no_one_ejected true
                   [("C", tally_count 2); ("D", tally_count 2)]) ] ∧
  map isAlive (players (handle (submit_vote "D" (Some "D")) s).1)
    = [true; true; true; true].
Proof. by vm_compute. Qed.

(** C5 (defect in the code).  The tally is a plain object written by key,
    and the keys are the targets the clients sent.  A ballot whose target is
    the name of a member inherited from [Object.prototype] is not tallied:
    under [__proto__] nothing is stored, under another such name a text that
    the scan for the maximum passes over.  With one ballot for C and one for
    [__proto__], two targets share the highest count, yet the tally holds C
    alone and C is ejected; with two ballots for C and two for [constructor],
    four ballots two against two, C is ejected as well. *)
Theorem ballot_for_inherited_name_not_tallied :
  (reachable one_against_one ∧
   valid_event one_against_one meeting_timeout ∧
   map vote (players one_against_one)
     = [Some "C"; Some "__proto__"; None; None] ∧
   count_votes "C" (players one_against_one) = 1 ∧
   count_votes "__proto__" (players one_against_one) = 1 ∧
   map isAlive (players (handle meeting_timeout one_against_one).1)
     = [true; true; false; true] ∧
   (handle meeting_timeout one_against_one).2
     = [(ToRoom, player_ejected "C" "Cyd" (Some crewmate)
                   [("C", tally_count 1)]
                   [("A", "C"); ("B", "__proto__")])]) ∧
  (reachable two_against_two ∧
   valid_event two_against_two (submit_vote "D" (Some "constructor")) ∧
   map vote (players two_against_two)
     = [Some "C"; Some "C"; Some "constructor"; None] ∧
   map isAlive
     (players (handle (submit_vote "D" (Some "constructor")) two_against_two).1)
     = [true; true; false; true] ∧
   (handle (submit_vote "D" (Some "constructor")) two_against_two).2
     = [(ToRoom, vote_submitted "D" "Dee");
        (ToRoom, player_ejected "C" "Cyd" (Some crewmate)
                   [("C", tally_count 2); ("constructor", tally_text 2)]
                   [("A", "C"); ("B", "C"); ("C", "constructor");
                    ("D", "constructor")])]).
Proof.
  split.
  - split; [|by vm_compute].
    eexists _, _. apply (exec_run inherited_vote initial_state).
    unfold inherited_vote, lobby4. simpl app. valid_trace_tac.
  - split; [|by vm_compute].
    eexists _, _. apply (exec_run inherited_split initial_state).
    unfold inherited_split, meeting, lobby4. simpl app. valid_trace_tac.
Qed.

(** A target with strictly the most ballots that is no longer registered:
    no alive flag changes, the votes are cleared, and nothing is emitted. *)
Lemma processVotes_dangling s t :
  t ≠ "" →
  inherited t = false →
  reg_get t (players s) = None →
  0 < count_votes t (players s) →
  (∀ u, u ≠ t → inherited u = false →
        count_votes u (players s) < count_votes t (players s)) →
  processVotes s = (with_players (clear_votes (players s)) s, []).
Proof.
  intros Ht Hplain Hnone Hpos Hmax.
  by rewrite (processVotes_unique s t Ht Hplain Hpos Hmax), Hnone.
Qed.

(** C6 (defect in the code).  The votes name a participant that has left the
    registry.  Resolution terminates and ejects nobody, but the
    [no-one-ejected] broadcast sits in the [else] of the outer test only: when
    the departed target wins the tally, the deferred resolution emits no event
    at all. *)
Theorem vote_for_departed_resolves_silently :
  reachable before_timeout ∧
  valid_event before_timeout meeting_timeout ∧
  map vote (players before_timeout) = [Some "D"; Some "D"; Some "D"] ∧
  reg_get "D" (players before_timeout) = None ∧
  map isAlive (players (handle meeting_timeout before_timeout).1)
    = [true; true; true] ∧
  map vote (players (handle meeting_timeout before_timeout).1)
    = [None; None; None] ∧
  (handle meeting_timeout before_timeout).2 = [].
Proof.
  split; [|by vm_compute].
  eexists _, _. apply (exec_run ghost_vote initial_state).
  unfold ghost_vote, lobby4. simpl app. valid_trace_tac.
Qed.

(** ** Order of the ballots *)

Lemma filter_length_lt {A} (f : A → bool) l x :
  x ∈ l → f x = false → length (List.filter f l) < length l.
Proof.
  induction l as [|y l IH]; simpl; [by intros ?%elem_of_nil|].
  intros [->|Hin]%elem_of_cons Hx.
  - rewrite Hx. pose proof (List.filter_length_le f l). lia.
  - specialize (IH Hin Hx). destruct (f y); simpl; lia.
Qed.

Lemma all_voted_false ps q :
  q ∈ ps → isAlive q = true → vote q = None → all_voted ps = false.
Proof.
  intros Hin Halive Hvote. unfold all_voted. apply Nat.eqb_neq.
  assert (q ∈ List.filter isAlive ps) as Hq.
  { apply list_elem_of_In, List.filter_In. split; [by apply list_elem_of_In|done]. }
  pose proof (filter_length_lt has_voted _ q Hq) as Hlt.
  unfold has_voted in Hlt at 1. rewrite Hvote in Hlt. specialize (Hlt eq_refl). lia.
Qed.

Lemma submitVote_alive v x s p :
  reg_get v (players s) = Some p → isAlive p = true →
  submitVote v x s =
  let s1 := with_players (reg_update v (set_vote x) (players s)) s in
  if all_voted (players s1) then
    ((processVotes s1).1,
     (ToRoom, vote_submitted (id p) (name p)) :: (processVotes s1).2)
  else (s1, [(ToRoom, vote_submitted (id p) (name p))]).
Proof.
  intros Hp Halive. unfold submitVote, all_voted. rewrite Hp, Halive. simpl.
  destruct (_ =? _); [|done]. by destruct (processVotes _).
Qed.

(** From a state where the callers have not voted yet, the calls only record
    the ballots, and resolution runs at most once, after the last call. *)
Lemma submit_all_fresh calls s :
  NoDup (map fst calls) → fresh_voters calls (players s) → calls ≠ [] →
  let s' := with_players (cast calls (players s)) s in
  (submit_all calls s).1
    = (if all_voted (players s') then (processVotes s').1 else s') ∧
  resolution_events (submit_all calls s).2
    = (if all_voted (players s') then resolution_events (processVotes s').2
       else []).
Proof.
  revert s. induction calls as [|[v x] rest IH]; intros s Hnd Hfresh Hne;
    [done|]. clear Hne.
  destruct (Hfresh v x) as (p & Hp & Halive & Hvote); [left|].
  simpl submit_all. rewrite (submitVote_alive v x s p Hp Halive).
  simpl in Hnd. apply NoDup_cons in Hnd as [Hv Hnd].
  destruct rest as [|[w y] rest'].
  - simpl. destruct (all_voted _); simpl; [|done].
    split; [done|]. by rewrite app_nil_r.
  - set (s1 := with_players (reg_update v (set_vote x) (players s)) s).
    assert (fresh_voters ((w, y) :: rest') (players s1)) as Hfresh1.
    { intros w' y' Hin. destruct (Hfresh w' y') as (q & Hq & Hqa & Hqv);
        [by right|].
      exists q. split; [|done]. simpl. rewrite reg_get_update by done.
      rewrite decide_False; [done|]. intros <-. apply Hv.
      by apply (list_elem_of_fmap_2 fst) in Hin. }
    destruct (Hfresh1 w y) as (q & Hq & Hqa & Hqv); [left|].
    cbv zeta. fold s1.
    rewrite (all_voted_false (players s1) q (reg_get_elem _ _ _ Hq) Hqa Hqv).
    destruct (IH s1 Hnd Hfresh1) as [Hst Hout]; [done|].
    destruct (submit_all ((w, y) :: rest') s1) as [s2 out2] eqn:Hrun.
    simpl in Hst, Hout. simpl. split; [exact Hst | exact Hout].
Qed.

Lemma cast_perm calls calls' ps :
  Permutation calls calls' → NoDup (map fst calls) →
  cast calls ps = cast calls' ps.
Proof.
  intros Hperm. revert ps.
  induction Hperm as [|c l l' Hperm IH|c1 c2 l|l1 l2 l3 H12 IH12 H23 IH23];
    intros ps Hnd.
  - done.
  - simpl in Hnd. apply NoDup_cons in Hnd as [_ Hnd]. unfold cast in *. simpl.
    by apply IH.
  - simpl in Hnd. apply NoDup_cons in Hnd as [Hne _].
    apply not_elem_of_cons in Hne as [Hne _].
    unfold cast. simpl. f_equal. apply reg_update_comm; done.
  - rewrite IH12 by done. apply IH23.
    by rewrite <- H12.
Qed.

(** C8, the claim as stated fails: A and B, both alive, change their votes.
    Whichever call arrives first completes the ballots and is resolved at
    once, so the two orders of the same two calls eject different
    participants. *)
Lemma revote_order_changes_outcome :
  reachable revote_state ∧
  map (λ p, (id p, isAlive p, vote p)) (players revote_state)
    = [("A", true, Some "B"); ("B", true, Some "C"); ("C", true, Some "A")] ∧
  Permutation [("A", Some "C"); ("B", Some "A")]
              [("B", Some "A"); ("A", Some "C")] ∧
  ejected_ids
    (submit_all [("A", Some "C"); ("B", Some "A")] revote_state).2 = ["C"] ∧
  ejected_ids
    (submit_all [("B", Some "A"); ("A", Some "C")] revote_state).2 = ["A"].
Proof.
  split; [|split; [by vm_compute|split; [apply perm_swap | by vm_compute]]].
  eexists _, _. apply (exec_run all_voted_meeting initial_state).
  unfold all_voted_meeting, lobby4. simpl app. valid_trace_tac.
Qed.

(** C8, as amended.  For calls of [submit-vote] by distinct voters, each
    registered, alive and without a recorded vote (as after a meeting opens,
    which clears every vote), any two orders of the same calls lead to the
    same state and to the same resolution messages: the same participant is
    ejected, or the same tie or no-ejection result is broadcast; when the
    calls do not complete the ballots, the deferred resolution starts from
    that same state. *)
Theorem submit_votes_order_independent s calls calls' :
  NoDup (map fst calls) →
  fresh_voters calls (players s) →
  Permutation calls calls' →
  (submit_all calls s).1 = (submit_all calls' s).1 ∧
  resolution_events (submit_all calls s).2
    = resolution_events (submit_all calls' s).2 ∧
  processVotes (submit_all calls s).1 = processVotes (submit_all calls' s).1.
Proof.
  intros Hnd Hfresh Hperm.
  assert ((submit_all calls s).1 = (submit_all calls' s).1 ∧
          resolution_events (submit_all calls s).2
          = resolution_events (submit_all calls' s).2) as [H1 H2];
    [|by rewrite H1].
  destruct calls as [|c calls0].
  { apply Permutation_nil_l in Hperm as ->. done. }
  assert (NoDup (map fst calls')) as Hnd' by by rewrite <- Hperm.
  assert (fresh_voters calls' (players s)) as Hfresh'.
  { intros v x Hin. apply (Hfresh v x). by rewrite Hperm. }
  assert (calls' ≠ []) as Hne'.
  { intros ->. by apply Permutation_nil_r in Hperm. }
  destruct (submit_all_fresh _ s Hnd Hfresh) as [Hst Hout]; [done|].
  destruct (submit_all_fresh _ s Hnd' Hfresh' Hne') as [Hst' Hout'].
  cbv zeta in *. rewrite <- (cast_perm _ _ _ Hperm Hnd) in Hst', Hout'.
  split; congruence.
Qed.

(** Four ballots cast in one order and in the reverse order. *)
Lemma submit_votes_order_independent_witness :
  (submit_all four_calls meeting_open).1
    = (submit_all (rev four_calls) meeting_open).1 ∧
  resolution_events (submit_all four_calls meeting_open).2
    = resolution_events (submit_all (rev four_calls) meeting_open).2 ∧
  processVotes (submit_all four_calls meeting_open).1
    = processVotes (submit_all (rev four_calls) meeting_open).1.
Proof.
  apply (submit_votes_order_independent meeting_open four_calls
                                        (rev four_calls)).
  - by apply (bool_decide_unpack _).
  - intros v x Hin. unfold four_calls in Hin.
    repeat (apply elem_of_cons in Hin as [[= -> ->]|Hin]);
      [..|by apply elem_of_nil in Hin];
      eexists; (split; [vm_compute; reflexivity | split; reflexivity]).
  - apply Permutation_rev.
Defined.

(** * Further properties of the handlers *)

(** ** Round-scoped fields between round boundaries *)

Lemma steady_refl p : steady p p.
Proof. repeat split; auto. Qed.

Lemma steady_trans p1 p2 p3 : steady p1 p2 → steady p2 p3 → steady p1 p3.
Proof.
  intros (Hk1 & Hr1 & Ha1 & Hc1) (Hk2 & Hr2 & Ha2 & Hc2).
  split; [by eapply kept_trans|]. split; [congruence|]. split; [auto | lia].
Qed.

Lemma Forall2_steady_refl ps : Forall2 steady ps ps.
Proof. induction ps; constructor; auto using steady_refl. Qed.

Lemma Forall2_steady_trans ps1 ps2 ps3 :
  Forall2 steady ps1 ps2 → Forall2 steady ps2 ps3 → Forall2 steady ps1 ps3.
Proof.
  intros H. revert ps3. induction H; intros ps3 H3; inversion H3; subst;
    constructor; eauto using steady_trans.
Qed.

Lemma Forall2_steady_map (f : player → player) ps :
  (∀ p, steady p (f p)) → Forall2 steady ps (map f ps).
Proof. intros Hf. induction ps; simpl; constructor; auto. Qed.

Lemma Forall2_steady_update k (f : player → player) ps :
  (∀ p, steady p (f p)) → Forall2 steady ps (reg_update k f ps).
Proof.
  intros Hf. induction ps as [|p ps IH]; simpl; [constructor|].
  destruct (decide (id p = k)); constructor;
    auto using steady_refl, Forall2_steady_refl.
Qed.

(** The mutation reaches the very object that [get] returned. *)
Lemma Forall2_steady_update_get k (f : player → player) ps p :
  reg_get k ps = Some p → steady p (f p) →
  Forall2 steady ps (reg_update k f ps).
Proof.
  intros Hget Hf. induction ps as [|q ps IH]; simpl in *; [constructor|].
  destruct (decide (id q = k)).
  - injection Hget as ->. constructor; auto using Forall2_steady_refl.
  - constructor; auto using steady_refl.
Qed.

Lemma steady_set_isAlive_false p : steady p (set_isAlive false p).
Proof. repeat split; simpl; auto. discriminate. Qed.
Lemma steady_set_taskProgress tp p : steady p (set_taskProgress tp p).
Proof. repeat split; auto. Qed.
Lemma steady_set_vote v p : steady p (set_vote v p).
Proof. repeat split; auto. Qed.
Lemma steady_set_sabotageCount_S p :
  steady p (set_sabotageCount (S (sabotageCount p)) p).
Proof. repeat split; simpl; auto. Qed.

Lemma Forall2_steady_clear_votes ps : Forall2 steady ps (clear_votes ps).
Proof. apply Forall2_steady_map, steady_set_vote. Qed.

Create HintDb steady discriminated.
#[global] Hint Resolve steady_refl Forall2_steady_refl Forall2_steady_map
  Forall2_steady_update steady_set_isAlive_false steady_set_taskProgress
  steady_set_vote Forall2_steady_clear_votes : steady.

Lemma processVotes_steady s :
  Forall2 steady (players s) (players (processVotes s).1).
Proof.
  unfold processVotes. destruct (tally (players s)) as [votes voters].
  destruct (_ && _); [|simpl; auto with steady].
  destruct (ejectedPlayerId _); [|simpl; auto with steady].
  destruct (reg_get _ _); [|simpl; auto with steady].
  name_checkGameEnd. simpl in *. rewrite Hp.
  eapply Forall2_steady_trans; [|apply Forall2_steady_clear_votes].
  auto with steady.
Qed.

(** Every handler that is not a round boundary keeps the roles, never
    revives a participant and never lowers an accumulator. *)
Lemma handle_steady e s :
  round_boundary e = false →
  Forall2 steady (players s) (players (handle e s).1).
Proof.
  destruct e; simpl; try discriminate; intros _.
  - unfold taskProgressRelay.
    destruct (reg_get _ _); [destruct (is_role _ _)|]; simpl; auto with steady.
  - unfold saveTaskProgress.
    destruct (reg_get _ _); [destruct (is_role _ _)|]; simpl; auto with steady.
    destruct (3 <=? _)%Z; simpl; [|auto with steady].
    rewrite checkGameEnd_players. simpl. auto with steady.
  - unfold taskCompleted.
    destruct (reg_get _ _); [destruct (is_role _ _)|]; simpl; auto with steady.
    name_checkGameEnd. simpl. rewrite Hp. simpl.
    apply Forall2_steady_update. intros q. apply steady_set_taskProgress.
  - unfold attemptSabotage.
    destruct (reg_get sid _); [|simpl; auto with steady].
    destruct (reg_get targetPlayerId _) as [target|] eqn:Htgt;
      [|simpl; auto with steady].
    destruct (_ && _); [|simpl; auto with steady].
    destruct (_ && _); [simpl; auto with steady|].
    assert (Forall2 steady (players s)
              (reg_update targetPlayerId
                 (set_sabotageCount (S (sabotageCount target))) (players s)))
      as Hhit.
    { eapply Forall2_steady_update_get; [exact Htgt|].
      apply steady_set_sabotageCount_S. }
    destruct (3 <=? _); [|exact Hhit].
    name_checkGameEnd. simpl. rewrite Hp. simpl.
    eapply Forall2_steady_trans; [exact Hhit|]. auto with steady.
  - unfold triggerSabotage.
    destruct (reg_get _ _); [destruct (is_role _ _)|]; simpl; auto with steady.
  - unfold reportBody.
    destruct (reg_get _ _); [destruct (isAlive _)|]; simpl; auto with steady.
  - unfold emergencyMeeting.
    destruct (reg_get _ _); [destruct (isAlive _)|]; simpl; auto with steady.
  - unfold submitVote.
    destruct (reg_get _ _); [destruct (isAlive _)|]; simpl; auto with steady.
    destruct (_ =? _); [|simpl; auto with steady].
    match goal with |- context [processVotes ?s1] =>
      pose proof (processVotes_steady s1) as Hk;
      destruct (processVotes s1) as [s2 out2] end.
    simpl in *. eapply Forall2_steady_trans; [|exact Hk]. auto with steady.
  - unfold chatMessage. destruct (reg_get _ _); simpl; auto with steady.
  - unfold requestGameState. destruct (reg_get _ _); simpl; auto with steady.
  - unfold timerTick. destruct (_ <=? _)%Z; [|simpl; auto with steady].
    name_checkGameEnd. simpl. rewrite Hp. simpl. auto with steady.
  - unfold meetingTimeout. destruct (0 <? _); [|simpl; auto with steady].
    apply (processVotes_steady (with_pendingMeetings _ s)).
Qed.

(** X1.  Within a round, that is along any run without [join-lobby],
    [start-game], [disconnect] or the deferred lobby reset, the registry keeps
    the same participants in the same order, no role changes, no eliminated
    participant becomes alive again, and no sabotage accumulator decreases. *)
Theorem round_fields_steady s es s' out :
  run s es s' out →
  Forall (λ e, round_boundary e = false) es →
  Forall2 steady (players s) (players s').
Proof.
  induction 1 as [|s e s1 out1 es s2 out2 Hv He _ IH]; intros Hes.
  - apply Forall2_steady_refl.
  - apply Forall_cons in Hes as [He0 Hes].
    pose proof (handle_steady e s He0) as Hstep. rewrite He in Hstep.
    eapply Forall2_steady_trans; [exact Hstep | by apply IH].
Qed.

(** The round of [after_kill] goes on with two more hits on C. *)
Lemma round_fields_steady_witness :
  Forall2 steady (players after_kill) (players after_two_hits).
Proof.
  apply (round_fields_steady after_kill two_hits_on_C after_two_hits
           (exec two_hits_on_C after_kill).2).
  - apply (exec_run two_hits_on_C after_kill).
    unfold two_hits_on_C. valid_trace_tac.
  - unfold two_hits_on_C. repeat constructor.
Defined.

(** ** The number of impostors *)

Lemma impostor_count_steady ps ps' :
  Forall2 steady ps ps' → impostor_count ps' = impostor_count ps.
Proof.
  unfold impostor_count.
  induction 1 as [|p p' ps ps' (_ & Hr & _) _ IH]; simpl; [done|].
  assert (is_role impostor p' = is_role impostor p) as ->
    by (unfold is_role; by rewrite Hr).
  destruct (is_role impostor p); simpl; lia.
Qed.

Lemma impostor_count_set p ps :
  role p = None → impostor_count (reg_set p ps) ≤ impostor_count ps.
Proof.
  intros Hp. unfold impostor_count.
  assert (is_role impostor p = false) as Hno
    by (apply is_role_false; rewrite Hp; discriminate).
  induction ps as [|q ps IH]; simpl.
  - by rewrite Hno.
  - destruct (decide (id q = id p)); simpl.
    + rewrite Hno. destruct (is_role impostor q); simpl; lia.
    + destruct (is_role impostor q); simpl; lia.
Qed.

Lemma impostor_count_delete k ps :
  impostor_count (reg_delete k ps) ≤ impostor_count ps.
Proof.
  unfold impostor_count. induction ps as [|q ps IH]; simpl; [done|].
  destruct (decide (id q = k)); simpl; destruct (is_role impostor q); simpl; lia.
Qed.

Lemma impostor_count_lobby_reset (c : player → bool) ps :
  impostor_count (map (λ p, if c p then lobby_reset_player p else p) ps)
  ≤ impostor_count ps.
Proof.
  unfold impostor_count. induction ps as [|q ps IH]; simpl; [done|].
  destruct (c q); simpl; destruct (is_role impostor q); simpl; lia.
Qed.

Lemma pick_impostors_one_cases draws :
  pick_impostors 1 draws [] = [] ∨ ∃ r, pick_impostors 1 draws [] = [r].
Proof.
  destruct draws as [|r rest]; [by left|]. right. exists r.
  apply pick_impostors_one.
Qed.

Lemma impostor_count_startGame draws s :
  impostor_count (players (startGame draws s).1) ≤ 1 ∨
  players (startGame draws s).1 = players s.
Proof.
  destruct (decide (1 ≤ length (players s))) as [Hn|Hn].
  - left. rewrite startGame_players by done. unfold impostor_count.
    destruct (2 <=? length (players s)).
    + destruct (pick_impostors_one_cases draws) as [->|[r ->]].
      * rewrite no_impostor_without_index. simpl. lia.
      * etrans; [apply Nat.eq_le_incl, (impostors_of_index r (players s) 0)|].
        case_bool_decide; lia.
    + rewrite no_impostor_without_index. simpl. lia.
  - right. unfold startGame.
    assert ((1 <=? length (players s)) = false) as ->
      by (apply Nat.leb_gt; lia).
    done.
Qed.

Lemma handle_impostor_count e s :
  impostor_count (players s) ≤ 1 →
  impostor_count (players (handle e s).1) ≤ 1.
Proof.
  intros Hone. destruct (round_boundary e) eqn:Hb.
  - destruct e; try discriminate; simpl.
    + etrans; [by apply impostor_count_set | done].
    + destruct (impostor_count_startGame draws s) as [H|H];
        [done | by rewrite H].
    + unfold disconnect. destruct (reg_get _ _); [|done].
      assert (impostor_count (reg_delete sid (players s)) ≤ 1) as Hdel
        by (etrans; [apply impostor_count_delete | done]).
      simpl. by destruct (_ =? _).
    + unfold lobbyReset. destruct (pendingLobbyResets s); [done|]. simpl.
      etrans; [apply impostor_count_lobby_reset | done].
  - by rewrite (impostor_count_steady _ _ (handle_steady e s Hb)).
Qed.

Lemma run_impostor_count s es s' out :
  run s es s' out →
  impostor_count (players s) ≤ 1 → impostor_count (players s') ≤ 1.
Proof.
  induction 1 as [|s e s1 out1 es s2 out2 Hv He _ IH]; [done|].
  intros H0. apply IH. pose proof (handle_impostor_count e s H0) as H.
  by rewrite He in H.
Qed.

Lemma run_app s es1 s1 out1 es2 s2 out2 :
  run s es1 s1 out1 → run s1 es2 s2 out2 → run s (es1 ++ es2) s2 (out1 ++ out2).
Proof.
  induction 1 as [|s e sa outa es sb outb Hv He _ IH]; simpl; [done|].
  intros H2. rewrite <- app_assoc. econstructor; eauto.
Qed.

Lemma in_next_round_reachable : reachable in_next_round.
Proof.
  destruct after_kill_reachable as (es & out & Hrun).
  exists (es ++ next_round), (out ++ (exec next_round after_kill).2).
  eapply run_app; [exact Hrun | apply next_round_run].
Qed.

(** X2.  In every reachable state at most one registered participant has the
    impostor role. *)
Theorem at_most_one_impostor s :
  reachable s → impostor_count (players s) ≤ 1.
Proof.
  intros (es & out & Hrun). eapply run_impostor_count; [exact Hrun|].
  unfold impostor_count. simpl. lia.
Qed.

(** The next round of [in_next_round] still has one impostor. *)
Lemma at_most_one_impostor_witness :
  impostor_count (players in_next_round) ≤ 1.
Proof.
  apply (at_most_one_impostor in_next_round), in_next_round_reachable.
Defined.

(** ** The registry as a map *)

(** X3.  In every reachable state the registry behaves as a map keyed by
    connection identity: the identities are pairwise distinct and not empty,
    and looking up the identity of a registered participant returns that
    participant's record. *)
Theorem registry_is_a_map s :
  reachable s →
  NoDup (map id (players s)) ∧ ("" ∉ map id (players s)) ∧
  ∀ p, p ∈ players s → reg_get (id p) (players s) = Some p.
Proof.
  intros Hreach. destruct (reachable_inv s Hreach) as [[Hnd Hemp] _].
  split; [done|]. split; [done|]. intros p Hin. by apply reg_get_of_elem.
Qed.

Lemma registry_is_a_map_witness :
  NoDup (map id (players in_next_round)) ∧
  ("" ∉ map id (players in_next_round)) ∧
  ∀ p, p ∈ players in_next_round →
       reg_get (id p) (players in_next_round) = Some p.
Proof.
  apply (registry_is_a_map in_next_round), in_next_round_reachable.
Defined.

(** ** The round timer *)

Lemma checkGameEnd_timer s :
  timeRemaining (checkGameEnd s).1 = timeRemaining s ∧
  (gameTimer (checkGameEnd s).1 = true → gameTimer s = true).
Proof.
  unfold checkGameEnd. destruct (decide_winner s) as [[??]|]; simpl; [|done].
  split; [done | discriminate].
Qed.

Lemma processVotes_timer s :
  timeRemaining (processVotes s).1 = timeRemaining s ∧
  (gameTimer (processVotes s).1 = true → gameTimer s = true).
Proof.
  unfold processVotes. destruct (tally (players s)) as [votes voters].
  destruct (_ && _); [|done].
  destruct (ejectedPlayerId _); [|done].
  destruct (reg_get _ _); [|done].
  match goal with |- context [checkGameEnd ?s1] =>
    pose proof (checkGameEnd_timer s1) as Ht;
    destruct (checkGameEnd s1) as [s2 out2] end.
  exact Ht.
Qed.

(** Only [start-game] and the interval callback write the countdown, and no
    other handler installs the interval. *)
Lemma handle_timer e s :
  match e with
  | start_game _ _ | timer_tick => True
  | _ => timeRemaining (handle e s).1 = timeRemaining s ∧
         (gameTimer (handle e s).1 = true → gameTimer s = true)
  end.
Proof.
  destruct e; simpl; try done.
  - unfold taskProgressRelay.
    by destruct (reg_get _ _); [destruct (is_role _ _)|].
  - unfold saveTaskProgress.
    destruct (reg_get _ _); [destruct (is_role _ _)|]; try done.
    destruct (3 <=? _)%Z; [|done]. apply (checkGameEnd_timer (with_players _ s)).
  - unfold taskCompleted.
    destruct (reg_get _ _); [destruct (is_role _ _)|]; try done.
    match goal with |- context [checkGameEnd ?s1] =>
      pose proof (checkGameEnd_timer s1) as Ht;
      destruct (checkGameEnd s1) as [s2 out2] end.
    exact Ht.
  - unfold attemptSabotage.
    destruct (reg_get sid _); [|done].
    destruct (reg_get targetPlayerId _); [|done].
    destruct (_ && _); [|done].
    destruct (_ && _); [done|].
    destruct (3 <=? _); [|done].
    match goal with |- context [checkGameEnd ?s1] =>
      pose proof (checkGameEnd_timer s1) as Ht;
      destruct (checkGameEnd s1) as [s2 out2] end.
    exact Ht.
  - unfold triggerSabotage.
    by destruct (reg_get _ _); [destruct (is_role _ _)|].
  - unfold reportBody.
    by destruct (reg_get _ _); [destruct (isAlive _)|].
  - unfold emergencyMeeting.
    by destruct (reg_get _ _); [destruct (isAlive _)|].
  - unfold submitVote.
    destruct (reg_get _ _); [destruct (isAlive _)|]; try done.
    destruct (_ =? _); [|done].
    match goal with |- context [processVotes ?s1] =>
      pose proof (processVotes_timer s1) as Ht;
      destruct (processVotes s1) as [s2 out2] end.
    exact Ht.
  - unfold chatMessage. by destruct (reg_get _ _).
  - unfold requestGameState. by destruct (reg_get _ _).
  - unfold disconnect. destruct (reg_get _ _); [|done]. simpl.
    destruct (_ =? _); simpl; [split; [done | discriminate] | done].
  - unfold meetingTimeout. destruct (0 <? _); [|done].
    apply (processVotes_timer (with_pendingMeetings _ s)).
  - unfold lobbyReset. by destruct (pendingLobbyResets s).
Qed.

Lemma decide_winner_at_zero s :
  (timeRemaining s ≤ 0)%Z → is_Some (decide_winner s).
Proof.
  intros Ht. unfold decide_winner.
  destruct (_ =? 0); [eauto|]. destruct (_ <=? _); [eauto|].
  destruct (forallb _ _); [eauto|].
  rewrite (proj2 (Z.leb_le _ _) Ht). eauto.
Qed.

Lemma handle_timer_inv e s :
  valid_event s e → timer_inv s → timer_inv (handle e s).1.
Proof.
  intros Hv [Hb Hpos]. pose proof (handle_timer e s) as Hframe.
  destruct e; cbv beta iota in Hframe;
    lazymatch type of Hframe with
    | True => idtac
    | _ => destruct Hframe as [Ht Himp]; split;
           [rewrite Ht; exact Hb | intros Hg; rewrite Ht; apply Hpos, Himp, Hg]
    end.
  - (* start-game *)
    simpl. unfold startGame. destruct (1 <=? length (players s));
      unfold timer_inv; simpl; [|by split].
    split; [lia | intros _; lia].
  - (* the interval callback *)
    simpl in Hv |- *. specialize (Hpos Hv). unfold timerTick.
    destruct (_ <=? _)%Z eqn:Hz.
    + apply Z.leb_le in Hz.
      match goal with |- context [checkGameEnd ?s1] =>
        pose proof (checkGameEnd_timer s1) as [Ht Hg];
        destruct (checkGameEnd s1) as [s2 out2] end.
      unfold timer_inv. simpl in *. split; [rewrite Ht; lia|]. intros Htrue.
      by specialize (Hg Htrue).
    + apply Z.leb_gt in Hz. unfold timer_inv. simpl.
      split; [lia | intros _; lia].
Qed.

Lemma run_timer_inv s es s' out : run s es s' out → timer_inv s → timer_inv s'.
Proof.
  induction 1 as [|s e s1 out1 es s2 out2 Hv He _ IH]; [done|].
  intros Hinv. apply IH. pose proof (handle_timer_inv e s Hv Hinv) as H.
  by rewrite He in H.
Qed.

(** X4.  In every reachable state the remaining time lies between 0 and the
    round duration of 300 seconds, and it is positive whenever the interval
    is installed. *)
Theorem countdown_within_round s :
  reachable s →
  (0 ≤ timeRemaining s ≤ 300)%Z ∧
  (gameTimer s = true → (0 < timeRemaining s)%Z).
Proof.
  intros (es & out & Hrun). eapply run_timer_inv; [exact Hrun|].
  split; simpl; [lia | discriminate].
Qed.

Lemma countdown_within_round_witness :
  (0 ≤ timeRemaining in_next_round ≤ 300)%Z ∧
  (gameTimer in_next_round = true → (0 < timeRemaining in_next_round)%Z).
Proof.
  apply (countdown_within_round in_next_round), in_next_round_reachable.
Defined.

(** X5.  One run of the interval callback while the countdown is positive:
    the remaining time drops by one and is broadcast with minutes and seconds
    that recompose it, seconds below 60.  While time is left nothing else
    happens; on reaching zero the interval is dropped and the round always
    ends: some winner is found, the summary is broadcast and one lobby reset
    of the registered participants is scheduled. *)
Theorem timerTick_countdown s :
  (0 < timeRemaining s)%Z →
  (60 * ((timeRemaining s - 1) / 60) + Z.rem (timeRemaining s - 1) 60
     = timeRemaining s - 1 ∧
   0 ≤ Z.rem (timeRemaining s - 1) 60 < 60)%Z ∧
  ((1 < timeRemaining s)%Z →
   timerTick s =
     (with_timeRemaining (timeRemaining s - 1) s,
      [(ToRoom, game_timer_update (timeRemaining s - 1)
                  ((timeRemaining s - 1) / 60)
                  (Z.rem (timeRemaining s - 1) 60))])) ∧
  (timeRemaining s = 1%Z →
   ∃ winner reason,
     timerTick s =
       (with_pendingLobbyResets (pendingLobbyResets s ++ [map oid (players s)])
          (with_gameTimer false (with_timeRemaining 0 s)),
        [(ToRoom, game_timer_update 0 0 0);
         (ToRoom, game_ended winner reason (map roster_of (players s)))])).
Proof.
  intros Hpos. split; [|split].
  - rewrite Z.rem_mod_nonneg by lia.
    pose proof (Z.div_mod (timeRemaining s - 1) 60 ltac:(lia)).
    pose proof (Z.mod_pos_bound (timeRemaining s - 1) 60 ltac:(lia)). lia.
  - intros Hgt. unfold timerTick.
    assert ((timeRemaining s - 1 <=? 0)%Z = false) as ->
      by (apply Z.leb_gt; lia).
    done.
  - intros H1. unfold timerTick. rewrite H1.
    change (1 - 1)%Z with 0%Z. change (0 <=? 0)%Z with true. cbv iota.
    unfold checkGameEnd.
    destruct (decide_winner_at_zero
                (with_gameTimer false (with_timeRemaining 0 s)))
      as [[winner reason] Hw]; [simpl; lia|].
    rewrite Hw. exists winner, reason. reflexivity.
Qed.

(** The last tick of a round of four with time left before it. *)
Lemma timerTick_countdown_witness :
  (60 * ((timeRemaining after_kill - 1) / 60)
   + Z.rem (timeRemaining after_kill - 1) 60
     = timeRemaining after_kill - 1 ∧
   0 ≤ Z.rem (timeRemaining after_kill - 1) 60 < 60)%Z ∧
  timerTick after_kill =
    (with_timeRemaining 299 after_kill,
     [(ToRoom, game_timer_update 299 4 59)]).
Proof.
  destruct (timerTick_countdown after_kill) as (Hdecomp & Hrun & _).
  - vm_compute. reflexivity.
  - split; [exact Hdecomp|]. apply Hrun. vm_compute. reflexivity.
Defined.

(** ** Joining and leaving *)

Lemma reg_get_delete_ne k k' ps :
  k ≠ k' → reg_get k' (reg_delete k ps) = reg_get k' ps.
Proof.
  intros Hne. induction ps as [|q ps IH]; simpl; [done|].
  destruct (decide (id q = k)) as [E|E]; simpl.
  - rewrite decide_False by congruence. done.
  - by rewrite IH.
Qed.

Lemma reg_delete_filter k ps :
  NoDup (map id ps) →
  reg_delete k ps = List.filter (λ q, negb (bool_decide (id q = k))) ps.
Proof.
  induction ps as [|q ps IH]; simpl; [done|].
  rewrite NoDup_cons. intros [Hq Hnd].
  destruct (decide (id q = k)) as [E|E].
  - rewrite bool_decide_eq_true_2 by done. simpl. clear IH.
    induction ps as [|r ps IH]; simpl; [done|].
    simpl in Hq, Hnd. apply not_elem_of_cons in Hq as [Hr Hq].
    apply NoDup_cons in Hnd as [_ Hnd].
    rewrite bool_decide_eq_false_2 by congruence. simpl. f_equal. auto.
  - rewrite bool_decide_eq_false_2 by done. simpl. f_equal. auto.
Qed.

Lemma reg_set_absent p ps : reg_get (id p) ps = None → reg_set p ps = ps ++ [p].
Proof.
  induction ps as [|q ps IH]; simpl; [done|].
  destruct (decide (id q = id p)); [done|]. intros H. by rewrite IH.
Qed.

Lemma reg_get_snoc k ps p :
  reg_get k ps = None → id p = k → reg_get k (ps ++ [p]) = Some p.
Proof.
  intros Hnone Hid. induction ps as [|q ps IH]; simpl in *.
  - by rewrite decide_True.
  - destruct (decide (id q = k)); [done | auto].
Qed.

Lemma reg_delete_snoc k ps p :
  reg_get k ps = None → id p = k → reg_delete k (ps ++ [p]) = ps.
Proof.
  intros Hnone Hid. induction ps as [|q ps IH]; simpl in *.
  - by rewrite decide_True.
  - destruct (decide (id q = k)); [done|]. f_equal. auto.
Qed.

(** X6.  [disconnect] of a registered connection, in a registry with distinct
    identities: the identity is no longer registered, every other lookup and
    the order of the remaining participants are unchanged, the interval is
    dropped exactly when the registry becomes empty, and the room is told
    who left and sent the new roster. *)
Theorem disconnect_removes s sid p :
  NoDup (map id (players s)) →
  reg_get sid (players s) = Some p →
  reg_get sid (players (disconnect sid s).1) = None ∧
  (∀ k, k ≠ sid →
        reg_get k (players (disconnect sid s).1) = reg_get k (players s)) ∧
  players (disconnect sid s).1
    = List.filter (λ q, negb (bool_decide (id q = sid))) (players s) ∧
  gameTimer (disconnect sid s).1
    = (if decide (players (disconnect sid s).1 = []) then false
       else gameTimer s) ∧
  (disconnect sid s).2
    = [(ToRoom, player_disconnected sid (name p));
       (ToRoom, player_list_update (players (disconnect sid s).1))].
Proof.
  intros Hnd Hp.
  assert (players (disconnect sid s).1 = reg_delete sid (players s)) as Hps.
  { unfold disconnect. rewrite Hp. simpl. by destruct (_ =? _). }
  rewrite Hps. split; [by apply reg_get_delete|].
  split; [intros k Hk; by apply reg_get_delete_ne|].
  split; [by apply reg_delete_filter|].
  unfold disconnect. rewrite Hp. simpl.
  destruct (reg_delete sid (players s)) as [|q l] eqn:Hdel; simpl;
    split; done.
Qed.

(** D leaves the round of four. *)
Lemma disconnect_removes_witness :
  reg_get "D" (players (disconnect "D" after_kill).1) = None ∧
  map id (players (disconnect "D" after_kill).1) = ["A"; "B"; "C"] ∧
  gameTimer (disconnect "D" after_kill).1 = true.
Proof.
  destruct (disconnect_removes after_kill "D"
              (mkPlayer 3 "D" "Dee" (Some crewmate) true (take 3 CREWMATE_TASKS) 0
                        "#96ceb4" blank_progress None))
    as (Hgone & _ & Hps & Htimer & _).
  - by apply (bool_decide_unpack _).
  - vm_compute. reflexivity.
  - split; [exact Hgone|]. split; [by rewrite Hps|].
    rewrite Htimer. by vm_compute.
Defined.

(** X7.  [join-lobby] from a connection that is not registered appends its
    fresh record after the registered ones, and a [disconnect] of that
    connection right after gives back the registry as it was. *)
Theorem joinLobby_fresh_then_disconnect s sid playerName colorIndex shuffled :
  reg_get sid (players s) = None →
  players (joinLobby sid playerName colorIndex shuffled s).1
    = players s ++ [fresh_player s sid playerName colorIndex shuffled] ∧
  players (disconnect sid (joinLobby sid playerName colorIndex shuffled s).1).1
    = players s.
Proof.
  intros Hnone.
  assert (players (joinLobby sid playerName colorIndex shuffled s).1
          = players s ++ [fresh_player s sid playerName colorIndex shuffled])
    as Hjoin.
  { unfold joinLobby. simpl. by apply reg_set_absent. }
  split; [exact Hjoin|].
  unfold disconnect. rewrite Hjoin.
  set (fresh := fresh_player s sid playerName colorIndex shuffled).
  rewrite (reg_get_snoc sid (players s) fresh Hnone eq_refl). simpl.
  rewrite (reg_delete_snoc sid (players s) fresh Hnone eq_refl).
  by destruct (_ =? _).
Qed.

(** A fifth connection joins the round of four and leaves again. *)
Lemma joinLobby_fresh_then_disconnect_witness :
  players (joinLobby "E" "Eve" 4 CREWMATE_TASKS after_kill).1
    = players after_kill ++ [fresh_player after_kill "E" "Eve" 4 CREWMATE_TASKS] ∧
  players (disconnect "E" (joinLobby "E" "Eve" 4 CREWMATE_TASKS after_kill).1).1
    = players after_kill.
Proof.
  apply (joinLobby_fresh_then_disconnect after_kill "E" "Eve" 4 CREWMATE_TASKS).
  vm_compute. reflexivity.
Defined.

(** ** Ignored actions *)

(** X8.  Every handler that starts by looking up the sending connection does
    nothing when that connection is not registered: the state is unchanged
    and no message is emitted. *)
Theorem unregistered_sender_ignored e s sid :
  sender e = Some sid →
  reg_get sid (players s) = None →
  handle e s = (s, []).
Proof.
  intros Hsender Hnone.
  destruct e; simpl in Hsender; try discriminate; injection Hsender as ->;
    simpl.
  - unfold taskProgressRelay. by rewrite Hnone.
  - unfold saveTaskProgress. by rewrite Hnone.
  - unfold taskCompleted. by rewrite Hnone.
  - unfold attemptSabotage. by rewrite Hnone.
  - unfold triggerSabotage. by rewrite Hnone.
  - unfold reportBody. by rewrite Hnone.
  - unfold emergencyMeeting. by rewrite Hnone.
  - unfold submitVote. by rewrite Hnone.
  - unfold chatMessage. by rewrite Hnone.
  - unfold requestGameState. by rewrite Hnone.
  - unfold disconnect. by rewrite Hnone.
Qed.

(** A connection that never joined tries to vote. *)
Lemma unregistered_sender_ignored_witness :
  handle (submit_vote "Z" (Some "A")) after_kill = (after_kill, []).
Proof.
  apply (unregistered_sender_ignored (submit_vote "Z" (Some "A")) after_kill "Z").
  - reflexivity.
  - vm_compute. reflexivity.
Defined.

(** X9.  The role and aliveness guards.  For a registered sender: the task
    handlers do nothing unless the sender is a crewmate; the two sabotage
    handlers do nothing unless the sender is an impostor, and a sabotage
    attempt does nothing unless the target is a registered crewmate; a
    participant who is not alive can neither report a body, nor call a
    meeting, nor vote. *)
Theorem guarded_actions_ignored s sid p :
  reg_get sid (players s) = Some p →
  (role p ≠ Some crewmate →
   (∀ t pr sd, taskProgressRelay sid t pr sd s = (s, [])) ∧
   (∀ tp, saveTaskProgress sid tp s = (s, [])) ∧
   (∀ n, taskCompleted sid n s = (s, []))) ∧
  (role p ≠ Some impostor →
   (∀ tgt ok ty now now', attemptSabotage sid tgt ok ty now now' s = (s, [])) ∧
   (∀ ty tgt, triggerSabotage sid ty tgt s = (s, []))) ∧
  (∀ tgt ok ty now now',
     match reg_get tgt (players s) with
     | Some target => role target ≠ Some crewmate
     | None => True
     end →
     attemptSabotage sid tgt ok ty now now' s = (s, [])) ∧
  (isAlive p = false →
   (∀ loc, reportBody sid loc s = (s, [])) ∧
   emergencyMeeting sid s = (s, []) ∧
   (∀ v, submitVote sid v s = (s, []))).
Proof.
  intros Hp. split; [|split; [|split]].
  - intros Hrole. apply is_role_false in Hrole.
    unfold taskProgressRelay, saveTaskProgress, taskCompleted.
    rewrite Hp, Hrole. done.
  - intros Hrole. apply is_role_false in Hrole. split.
    + intros tgt ok ty now now'. unfold attemptSabotage. rewrite Hp, Hrole.
      by destruct (reg_get tgt (players s)).
    + intros ty tgt. unfold triggerSabotage. by rewrite Hp, Hrole.
  - intros tgt ok ty now now' Htgt. unfold attemptSabotage. rewrite Hp.
    destruct (reg_get tgt (players s)) as [target|]; [|done].
    apply is_role_false in Htgt. by rewrite Htgt, andb_false_r.
  - intros Hdead. unfold reportBody, emergencyMeeting, submitVote.
    rewrite Hp, Hdead. done.
Qed.

(** B, a dead crewmate of the round of four. *)
Lemma guarded_actions_ignored_witness :
  attemptSabotage "B" "C" true "virus" t0 t0 after_kill = (after_kill, []) ∧
  triggerSabotage "B" "virus" "C" after_kill = (after_kill, []) ∧
  attemptSabotage "B" "A" true "virus" t0 t0 after_kill = (after_kill, []) ∧
  reportBody "B" "lab" after_kill = (after_kill, []) ∧
  emergencyMeeting "B" after_kill = (after_kill, []) ∧
  submitVote "B" (Some "A") after_kill = (after_kill, []).
Proof.
  destruct (guarded_actions_ignored after_kill "B"
              (mkPlayer 1 "B" "Bob" (Some crewmate) false (take 3 CREWMATE_TASKS) 3
                        "#4ecdc4" blank_progress None))
    as (_ & Himp & Htgt & Hdead); [vm_compute; reflexivity|].
  destruct Himp as [Hattempt Htrigger]; [discriminate|].
  destruct Hdead as (Hreport & Hmeet & Hvote); [reflexivity|].
  split; [apply Hattempt|]. split; [apply Htrigger|].
  split; [apply Htgt; vm_compute; discriminate|].
  split; [apply Hreport|]. split; [exact Hmeet | apply Hvote].
Defined.

(** ** Meetings and resolution in general *)

Lemma count_votes_none ps t :
  Forall (λ q, vote q = None) ps → count_votes t ps = 0.
Proof.
  unfold count_votes. induction 1 as [|q ps Hq _ IH]; simpl; [done|].
  rewrite Hq. rewrite bool_decide_eq_false_2 by discriminate. done.
Qed.

Lemma clear_votes_none ps : Forall (λ q, vote q = None) (clear_votes ps).
Proof. unfold clear_votes. induction ps; simpl; constructor; auto. Qed.

Lemma clear_votes_length ps : length (clear_votes ps) = length ps.
Proof. unfold clear_votes. induction ps; simpl; auto. Qed.

Lemma clear_votes_idemp ps : clear_votes (clear_votes ps) = clear_votes ps.
Proof. unfold clear_votes. rewrite map_map. by apply map_ext. Qed.

(** X10.  An alive participant opens a meeting, by [emergency-meeting] or by
    [report-body] alike: the alive participants are announced, every earlier
    vote is discarded and one deferred resolution is scheduled.  If nobody
    votes before it runs, that resolution ejects nobody, reports no tie and
    an empty tally, and changes nothing but the cleared votes. *)
Theorem meeting_without_ballots s sid p :
  reg_get sid (players s) = Some p →
  isAlive p = true →
  (emergencyMeeting sid s).2
    = [(ToRoom, emergency_meeting_started
                  (map roster_of (List.filter isAlive (players s))) 90)] ∧
  (∀ loc, reportBody sid loc s
          = ((emergencyMeeting sid s).1,
             (ToRoom, body_reported (name p) loc) :: (emergencyMeeting sid s).2)) ∧
  Forall (λ q, vote q = None) (players (emergencyMeeting sid s).1) ∧
  pendingMeetings (emergencyMeeting sid s).1 = S (pendingMeetings s) ∧
  handle meeting_timeout (emergencyMeeting sid s).1
    = (with_players (clear_votes (players s)) s,
       [(ToRoom, no_one_ejected false [])]).
Proof.
  intros Hp Halive. unfold emergencyMeeting, reportBody. rewrite Hp, Halive.
  split; [done|]. split; [done|]. split; [apply clear_votes_none|].
  split; [done|]. simpl. unfold meetingTimeout. simpl.
  rewrite clear_votes_length.
  assert ((0 <? length (players s)) = true) as ->.
  { apply Nat.ltb_lt. apply reg_get_elem in Hp.
    destruct (players s); [by apply elem_of_nil in Hp | simpl; lia]. }
  rewrite processVotes_no_votes.
  - simpl. by rewrite clear_votes_idemp.
  - intros u. apply count_votes_none, clear_votes_none.
Qed.

(** C calls a meeting in the round of four and nobody votes. *)
Lemma meeting_without_ballots_witness :
  handle meeting_timeout (emergencyMeeting "C" after_kill).1
    = (with_players (clear_votes (players after_kill)) after_kill,
       [(ToRoom, no_one_ejected false [])]).
Proof.
  destruct (meeting_without_ballots after_kill "C"
              (mkPlayer 2 "C" "Cyd" (Some crewmate) true (take 3 CREWMATE_TASKS) 0
                        "#45b7d1" blank_progress None))
    as (_ & _ & _ & _ & Htimeout);
    [vm_compute; reflexivity | reflexivity | exact Htimeout].
Defined.

Lemma processVotes_players s :
  players (processVotes s).1 = clear_votes (players s) ∨
  ∃ k, players (processVotes s).1
       = clear_votes (reg_update k (set_isAlive false) (players s)).
Proof.
  unfold processVotes. destruct (tally (players s)) as [votes voters].
  destruct (_ && _); [|by left].
  destruct (ejectedPlayerId _) as [k|]; [|by left].
  destruct (reg_get _ _); [|by left].
  right. exists k. name_checkGameEnd. simpl in *. by rewrite Hp.
Qed.

Lemma resolved_clear_votes ps : Forall2 resolved ps (clear_votes ps).
Proof.
  unfold clear_votes. induction ps; simpl; constructor; [|done].
  repeat split; auto.
Qed.

Lemma resolved_eject k ps :
  Forall2 resolved ps (clear_votes (reg_update k (set_isAlive false) ps)).
Proof.
  induction ps as [|q ps IH]; simpl; [constructor|].
  destruct (decide (id q = k)); simpl; constructor;
    try apply resolved_clear_votes; try done.
Qed.

Lemma alive_changes_clear_votes ps : alive_changes ps (clear_votes ps) = 0.
Proof.
  unfold alive_changes, clear_votes. induction ps as [|q ps IH]; simpl; [done|].
  by rewrite Bool.eqb_reflx.
Qed.

Lemma alive_changes_eject k ps :
  alive_changes ps (clear_votes (reg_update k (set_isAlive false) ps)) ≤ 1.
Proof.
  induction ps as [|q ps IH]; simpl; [unfold alive_changes; simpl; lia|].
  destruct (decide (id q = k)).
  - pose proof (alive_changes_clear_votes ps) as H0.
    unfold alive_changes, clear_votes in *. simpl.
    destruct (negb _); simpl; lia.
  - unfold alive_changes, clear_votes in *. simpl.
    by rewrite Bool.eqb_reflx.
Qed.

(** X11.  Whatever the ballots, a vote resolution keeps the registered
    participants, their roles, accumulators and task progress, leaves every
    vote cleared, never makes a participant alive, and changes the alive flag
    of at most one participant. *)
Theorem processVotes_effect s :
  Forall2 resolved (players s) (players (processVotes s).1) ∧
  alive_changes (players s) (players (processVotes s).1) ≤ 1.
Proof.
  destruct (processVotes_players s) as [->|[k ->]].
  - split; [apply resolved_clear_votes|].
    rewrite alive_changes_clear_votes. lia.
  - split; [apply resolved_eject | apply alive_changes_eject].
Qed.

(** ** The scan and the order of the tally's entries *)

(** [scan_post] determines the maximum, the tie flag and, without a tie, the
    candidate; it reads the entries as a set. *)
Lemma scan_post_unique votes votes' st st' :
  (∀ e, e ∈ votes ↔ e ∈ votes') →
  scan_post votes st → scan_post votes' st' →
  maxVotes st = maxVotes st' ∧ tie st = tie st' ∧
  (tie st = false → ejectedPlayerId st = ejectedPlayerId st').
Proof.
  intros Hsame (Hle & Hzero & Hcons & Htie) (Hle' & Hzero' & Hcons' & Htie').
  assert (maxVotes st = maxVotes st') as Hmax.
  { destruct (Nat.eq_0_gt_0_cases (maxVotes st)) as [H0|Hpos];
      destruct (Nat.eq_0_gt_0_cases (maxVotes st')) as [H0'|Hpos']; [lia| | |].
    - destruct (Hcons' Hpos') as (k & _ & Hk). apply Hsame, Hle in Hk. lia.
    - destruct (Hcons Hpos) as (k & _ & Hk). apply Hsame, Hle' in Hk. lia.
    - destruct (Hcons Hpos) as (k & _ & Hk).
      destruct (Hcons' Hpos') as (k' & _ & Hk').
      apply Hsame, Hle' in Hk. apply Hsame, Hle in Hk'. lia. }
  destruct (Nat.eq_0_gt_0_cases (maxVotes st)) as [H0|Hpos].
  { rewrite (Hzero H0), (Hzero' ltac:(lia)). done. }
  destruct (Hcons Hpos) as (k & Hej & Hk).
  destruct (Hcons' ltac:(lia)) as (k' & Hej' & Hk').
  assert (tie st = true ↔ tie st' = true) as Htt.
  { rewrite Htie, Htie', Hmax. split.
    - intros (k1 & k2 & Hne & H1 & H2). exists k1, k2.
      split; [done|]. split; by apply Hsame.
    - intros (k1 & k2 & Hne & H1 & H2). exists k1, k2.
      split; [done|]. split; by apply Hsame. }
  split; [done|]. split.
  - destruct (tie st), (tie st'); try done.
    + by destruct (proj1 Htt eq_refl).
    + by destruct (proj2 Htt eq_refl).
  - intros Hno. rewrite Hej, Hej'. f_equal.
    destruct (decide (k = k')) as [|Hne]; [done|]. exfalso.
    assert (tie st = true) as Habs; [|congruence].
    apply Htie. exists k, k'. split; [done|]. split; [done|].
    rewrite Hmax. by apply Hsame.
Qed.

(** X12.  The scan for the maximum does not depend on the order in which
    the entries of the tally object are enumerated: for a tally with one
    positive entry per target, any rearrangement gives the same maximum and
    the same tie flag, and the same candidate whenever there is no tie. *)
Theorem scan_order_irrelevant votes votes' :
  votes_wf votes →
  Permutation votes votes' →
  maxVotes (scan votes) = maxVotes (scan votes') ∧
  tie (scan votes) = tie (scan votes') ∧
  (tie (scan votes) = false →
   ejectedPlayerId (scan votes) = ejectedPlayerId (scan votes')).
Proof.
  intros Hwf Hperm.
  eapply (scan_post_unique votes votes').
  - intros e. by rewrite Hperm.
  - by apply scan_spec.
  - apply scan_spec. by eapply votes_wf_perm.
Qed.

Lemma scan_order_irrelevant_witness :
  maxVotes (scan [("A", tally_count 1); ("C", tally_count 2);
                  ("D", tally_count 1)])
    = maxVotes (scan [("D", tally_count 1); ("C", tally_count 2);
                      ("A", tally_count 1)]) ∧
  tie (scan [("A", tally_count 1); ("C", tally_count 2); ("D", tally_count 1)])
    = tie (scan [("D", tally_count 1); ("C", tally_count 2);
                 ("A", tally_count 1)]) ∧
  (tie (scan [("A", tally_count 1); ("C", tally_count 2);
              ("D", tally_count 1)]) = false →
   ejectedPlayerId (scan [("A", tally_count 1); ("C", tally_count 2);
                          ("D", tally_count 1)])
     = ejectedPlayerId (scan [("D", tally_count 1); ("C", tally_count 2);
                              ("A", tally_count 1)])).
Proof.
  apply (scan_order_irrelevant
           [("A", tally_count 1); ("C", tally_count 2); ("D", tally_count 1)]
           [("D", tally_count 1); ("C", tally_count 2); ("A", tally_count 1)]).
  - split; [by apply (bool_decide_unpack _) | repeat constructor].
  - apply (Permutation_rev
             [("A", tally_count 1); ("C", tally_count 2); ("D", tally_count 1)]).
Defined.

(** ** The impostor draw *)

Lemma pick_impostors_spec count draws acc :
  NoDup acc →
  NoDup (pick_impostors count draws acc) ∧
  length (pick_impostors count draws acc) ≤ max count (length acc) ∧
  (∀ i, i ∈ pick_impostors count draws acc → i ∈ acc ∨ i ∈ draws).
Proof.
  revert acc. induction draws as [|r rest IH]; intros acc Hnd; simpl.
  - split; [done|]. split; [lia | auto].
  - destruct (length acc <? count) eqn:Hlt.
    + apply Nat.ltb_lt in Hlt.
      set (acc' := if bool_decide (r ∈ acc) then acc else acc ++ [r]).
      assert (NoDup acc') as Hnd'.
      { unfold acc'. case_bool_decide as Hin; [done|].
        apply NoDup_app. split; [done|]. split; [|apply NoDup_singleton].
        intros x Hx ->%list_elem_of_singleton. done. }
      assert (length acc' ≤ count) as Hlen.
      { unfold acc'. case_bool_decide; [lia|]. rewrite length_app. simpl. lia. }
      destruct (IH acc' Hnd') as (H1 & H2 & H3).
      split; [done|]. split; [lia|]. intros i Hi.
      destruct (H3 i Hi) as [Hacc|Hrest]; [|right; by right].
      unfold acc' in Hacc. case_bool_decide; [by left|].
      apply elem_of_app in Hacc as [Hacc|Hacc];
        [by left | apply list_elem_of_singleton in Hacc; subst i; right; left].
    + split; [done|]. split; [lia | auto].
Qed.

(** X13.  The loop that draws the impostor indices never keeps an index
    twice, keeps at most [impostorCount] of them, and keeps only values that
    were drawn. *)
Theorem pick_impostors_distinct count draws :
  NoDup (pick_impostors count draws []) ∧
  length (pick_impostors count draws []) ≤ count ∧
  (∀ i, i ∈ pick_impostors count draws [] → i ∈ draws).
Proof.
  destruct (pick_impostors_spec count draws [] (NoDup_nil_2))
    as (Hnd & Hlen & Hin).
  split; [done|]. split; [simpl in Hlen; lia|]. intros i Hi.
  destruct (Hin i Hi) as [Habs|?]; [by apply elem_of_nil in Habs | done].
Qed.

(** ** Cooldown and kill *)

(** X14.  With a kill recorded at [t] and a clock that has not gone back,
    the time left of the cooldown is 30000 ms minus the time elapsed, and
    while it is positive the notice sent to the impostor carries a whole
    number of seconds between 1 and 30 that covers it. *)
Theorem kill_cooldown_notice_bounds kc k now t :
  kc !! k = Some t →
  (t ≤ now)%Z →
  (0 < cooldownRemaining kc k now)%Z →
  cooldownRemaining kc k now = (30000 - (now - t))%Z ∧
  (1 ≤ ceil_seconds (cooldownRemaining kc k now) ≤ 30)%Z ∧
  (cooldownRemaining kc k now
     ≤ 1000 * ceil_seconds (cooldownRemaining kc k now))%Z.
Proof.
  intros Hk Hle Hpos.
  assert (cooldownRemaining kc k now = 30000 - (now - t))%Z as Hrem
    by (unfold cooldownRemaining; by rewrite Hk).
  pose proof (ceil_seconds_spec (cooldownRemaining kc k now)) as Hceil.
  split; [done|]. split; lia.
Qed.

Lemma kill_cooldown_notice_bounds_witness :
  cooldownRemaining (killCooldowns after_kill) "A" (t0 + 3000)
    = (30000 - (t0 + 3000 - t0))%Z ∧
  (1 ≤ ceil_seconds (cooldownRemaining (killCooldowns after_kill) "A"
                                       (t0 + 3000)) ≤ 30)%Z ∧
  (cooldownRemaining (killCooldowns after_kill) "A" (t0 + 3000)
     ≤ 1000 * ceil_seconds (cooldownRemaining (killCooldowns after_kill) "A"
                                              (t0 + 3000)))%Z.
Proof.
  apply (kill_cooldown_notice_bounds (killCooldowns after_kill) "A"
                                     (t0 + 3000)%Z t0).
  - vm_compute. reflexivity.
  - vm_compute. discriminate.
  - vm_compute. reflexivity.
Defined.

(** X15.  The killing hit.  An impostor with no kill recorded (and a clock
    past its first 30 seconds) or with the last kill at least 30 seconds old
    hits a crewmate whose accumulator is 2: the accumulator becomes 3, the
    target is no longer alive, the kill time is recorded for the impostor,
    and the attempt, the kill and the start of the cooldown are announced
    before the messages of the win evaluation. *)
Theorem kill_once_cooldown_over s sid tgt imp target ok ty now now' :
  reg_get sid (players s) = Some imp →
  reg_get tgt (players s) = Some target →
  role imp = Some impostor → role target = Some crewmate →
  sabotageCount target = 2 →
  match killCooldowns s !! sid with
  | Some t => (30000 ≤ now - t)%Z
  | None => (30000 ≤ now)%Z
  end →
  reg_get tgt (players (attemptSabotage sid tgt ok ty now now' s).1)
    = Some (set_isAlive false (set_sabotageCount 3 target)) ∧
  killCooldowns (attemptSabotage sid tgt ok ty now now' s).1 !! sid = Some now' ∧
  ∃ rest,
    (attemptSabotage sid tgt ok ty now now' s).2
    = [ (ToRoom, sabotage_attempt (name imp) (name target) 3 ok ty);
        (ToRoom, player_killed tgt (name target) (name imp));
        (ToSocket sid, kill_cooldown_active 30) ] ++ rest.
Proof.
  intros Himp Htgt Hri Hrt Hcount Hover.
  assert (cooldownRemaining (killCooldowns s) sid now ≤ 0)%Z as Hrem.
  { unfold cooldownRemaining. destruct (killCooldowns s !! sid); simpl; lia. }
  rewrite (attemptSabotage_kill sid tgt ok ty now now' s imp target
             Himp Htgt Hri Hrt Hrem) by lia.
  cbv zeta. simpl fst. simpl snd.
  rewrite checkGameEnd_players, checkGameEnd_killCooldowns. simpl.
  rewrite Hcount, (reg_get_id _ _ _ Htgt).
  split; [|split; [apply lookup_insert_eq | eauto]].
  rewrite !reg_get_update by done. rewrite !decide_True by done.
  by rewrite Htgt.
Qed.

(** Forty seconds after the kill of B, the third hit on C. *)
Lemma kill_once_cooldown_over_witness :
  reg_get "C"
    (players (attemptSabotage "A" "C" true "virus" (t0 + 40000) (t0 + 40001)
                              after_two_hits).1)
    = Some (mkPlayer 2 "C" "Cyd" (Some crewmate) false (take 3 CREWMATE_TASKS) 3
                     "#45b7d1" blank_progress None) ∧
  killCooldowns
    (attemptSabotage "A" "C" true "virus" (t0 + 40000) (t0 + 40001)
                     after_two_hits).1 !! "A" = Some (t0 + 40001)%Z.
Proof.
  destruct (kill_once_cooldown_over after_two_hits "A" "C"
              (mkPlayer 0 "A" "Ann" (Some impostor) true (take 3 CREWMATE_TASKS) 0
                        "#ff6b6b" blank_progress None)
              (mkPlayer 2 "C" "Cyd" (Some crewmate) true (take 3 CREWMATE_TASKS) 2
                        "#45b7d1" blank_progress None)
              true "virus" (t0 + 40000)%Z (t0 + 40001)%Z)
    as (Hdead & Hrec & _);
    [vm_compute; reflexivity | vm_compute; reflexivity | reflexivity
    | reflexivity | reflexivity | vm_compute; discriminate |].
  split; [exact Hdead | exact Hrec].
Defined.

(** ** Round start: notifications *)

Lemma game_started_events_notify roster l :
  game_started_events (flat_map (notify_start roster) l)
  = map (λ p, (ToSocket (id p),
               game_started (role p) (tasks p) (map roster_of roster))) l.
Proof.
  unfold game_started_events. induction l as [|p l IH]; simpl; [done|].
  f_equal. destruct (is_role crewmate p); simpl; exact IH.
Qed.

(** X16.  A [start-game] with at least one registered participant restarts
    the countdown at 300 seconds with the interval installed, and sends one
    [game-started] message to every participant, in registry order, each with
    that participant's own role and tasks and the common roster. *)
Theorem startGame_notifies draws s :
  1 ≤ length (players s) →
  timeRemaining (startGame draws s).1 = 300%Z ∧
  gameTimer (startGame draws s).1 = true ∧
  game_started_events (startGame draws s).2
  = map (λ p, (ToSocket (id p),
               game_started (role p) (tasks p)
                 (map roster_of (players (startGame draws s).1))))
        (players (startGame draws s).1).
Proof.
  intros Hn. split; [|split].
  - unfold startGame. by rewrite (proj2 (Nat.leb_le _ _) Hn).
  - unfold startGame. by rewrite (proj2 (Nat.leb_le _ _) Hn).
  - rewrite startGame_out by done. apply game_started_events_notify.
Qed.

Lemma startGame_notifies_witness :
  timeRemaining (startGame [2] after_kill).1 = 300%Z ∧
  gameTimer (startGame [2] after_kill).1 = true ∧
  game_started_events (startGame [2] after_kill).2
  = map (λ p, (ToSocket (id p),
               game_started (role p) (tasks p)
                 (map roster_of (players (startGame [2] after_kill).1))))
        (players (startGame [2] after_kill).1).
Proof.
  apply (startGame_notifies [2] after_kill). vm_compute. lia.
Defined.

(** ** Winning by tasks *)

Lemma filter_length_update (P : player → bool) k (f : player → player) ps :
  (∀ q, P (f q) = P q) →
  length (List.filter P (reg_update k f ps)) = length (List.filter P ps).
Proof.
  intros HP. induction ps as [|q ps IH]; simpl; [done|].
  destruct (decide (id q = k)); simpl.
  - rewrite HP. by destruct (P q).
  - destruct (P q); simpl; by rewrite IH.
Qed.

(** X17.  The last task.  In a registry with distinct identities, with an
    impostor alive, more crewmates alive than impostors, and every other
    crewmate (alive or not) at 3 completed tasks or more, a crewmate who
    reports 3 or more completed tasks ends the round: the update is
    broadcast, then the summary with the crewmates winning because all tasks
    are completed, and the interval is dropped. *)
Theorem last_task_wins s sid p n :
  NoDup (map id (players s)) →
  reg_get sid (players s) = Some p →
  role p = Some crewmate →
  (3 ≤ n)%Z →
  (∀ q, q ∈ players s → role q = Some crewmate → id q ≠ sid →
        (3 ≤ tasksCompleted (taskProgress q))%Z) →
  0 < length (List.filter (λ q, isAlive q && is_role impostor q) (players s)) →
  length (List.filter (λ q, isAlive q && is_role impostor q) (players s))
    < length (List.filter (λ q, isAlive q && is_role crewmate q) (players s)) →
  (taskCompleted sid n s).2
    = [ (ToRoom, task_completed_update sid (name p) n 3);
        (ToRoom, game_ended crewmates_win "All tasks completed"
                   (map roster_of (players (taskCompleted sid n s).1))) ] ∧
  gameTimer (taskCompleted sid n s).1 = false ∧
  (tasksCompleted ∘ taskProgress <$> reg_get sid (players (taskCompleted sid n s).1))
    = Some n.
Proof.
  intros Hnd Hp Hrole Hn Hothers Himp Hcrew.
  set (f := λ q, set_taskProgress (set_tasksCompleted n (taskProgress q)) q).
  set (s1 := with_players (reg_update sid f (players s)) s).
  assert (decide_winner s1 = Some (crewmates_win, "All tasks completed"))
    as Hwin.
  { unfold decide_winner. simpl players.
    rewrite !(filter_length_update _ sid f) by done.
    assert ((length (List.filter (λ q, isAlive q && is_role impostor q)
                                 (players s)) =? 0) = false) as ->
      by (apply Nat.eqb_neq; lia).
    assert ((length (List.filter (λ q, isAlive q && is_role crewmate q)
                                 (players s))
             <=? length (List.filter (λ q, isAlive q && is_role impostor q)
                                     (players s))) = false) as ->
      by (apply Nat.leb_gt; lia).
    assert (forallb (λ c, (3 <=? tasksCompleted (taskProgress c))%Z)
              (List.filter (is_role crewmate) (reg_update sid f (players s)))
            = true) as ->; [|done].
    apply forallb_forall. intros q' Hq'.
    apply List.filter_In in Hq' as [Hin Hcr]. apply Z.leb_le.
    rewrite (reg_update_map f sid _ Hnd) in Hin.
    apply in_map_iff in Hin as (q & <- & Hq).
    destruct (decide (id q = sid)) as [E|E]; [simpl; lia|].
    apply Hothers; [by apply list_elem_of_In | by apply is_role_true | done]. }
  unfold taskCompleted. rewrite Hp, (proj2 (is_role_true _ _) Hrole).
  fold f. fold s1. unfold checkGameEnd. rewrite Hwin. simpl.
  split; [done|]. split; [done|].
  rewrite reg_get_update by done. rewrite decide_True by done.
  by rewrite Hp.
Qed.

(** B and C are at three tasks; D reports the third. *)
Lemma last_task_wins_witness :
  (taskCompleted "D" 3
     (exec [task_completed "B" "network" 3; task_completed "C" "network" 3]
           after_kill).1).2
    = [ (ToRoom, task_completed_update "D" "Dee" 3 3);
        (ToRoom, game_ended crewmates_win "All tasks completed"
                   [ mkRoster "A" "Ann" "#ff6b6b" (Some impostor) true 0;
                     mkRoster "B" "Bob" "#4ecdc4" (Some crewmate) false 3;
                     mkRoster "C" "Cyd" "#45b7d1" (Some crewmate) true 3;
                     mkRoster "D" "Dee" "#96ceb4" (Some crewmate) true 3 ]) ].
Proof.
  destruct (last_task_wins
              (exec [task_completed "B" "network" 3;
                     task_completed "C" "network" 3] after_kill).1
              "D"
              (mkPlayer 3 "D" "Dee" (Some crewmate) true (take 3 CREWMATE_TASKS) 0
                        "#96ceb4" blank_progress None) 3)
    as (Hout & _ & _).
  - by apply (bool_decide_unpack _).
  - vm_compute. reflexivity.
  - reflexivity.
  - lia.
  - intros q Hq Hrole Hid. vm_compute players in Hq.
    repeat (apply elem_of_cons in Hq as [->|Hq]);
      [discriminate Hrole | simpl; lia | simpl; lia | by destruct Hid
      | by apply elem_of_nil in Hq].
  - vm_compute. lia.
  - vm_compute. lia.
  - exact Hout.
Defined.

(** ** A round started before the lobby reset *)



(** ** Saved progress and the state snapshot *)

(** X19.  What a crewmate saves is what the snapshot gives back: after
    [save-task-progress] with a record [tp], a [request-game-state] of the
    same connection answers with the roster, the countdown and the interval
    flag, followed by [restore-task-progress] carrying [tp], whether or not
    the save ended the round. *)
Theorem saved_progress_is_restored s sid p tp :
  reg_get sid (players s) = Some p →
  role p = Some crewmate →
  (taskProgress <$> reg_get sid (players (saveTaskProgress sid tp s).1))
    = Some tp ∧
  (requestGameState sid (saveTaskProgress sid tp s).1).2
    = [ (ToSocket sid,
         game_state_update
           (map roster_of (players (saveTaskProgress sid tp s).1))
           (timeRemaining s)
           (gameTimer (saveTaskProgress sid tp s).1));
        (ToSocket sid, restore_task_progress tp) ].
Proof.
  intros Hp Hrole.
  assert (players (saveTaskProgress sid tp s).1
          = reg_update sid (set_taskProgress tp) (players s) ∧
          timeRemaining (saveTaskProgress sid tp s).1 = timeRemaining s)
    as [Hps Htime].
  { unfold saveTaskProgress. rewrite Hp, (proj2 (is_role_true _ _) Hrole).
    destruct (3 <=? _)%Z; [|done].
    rewrite checkGameEnd_players.
    by destruct (checkGameEnd_timer
                   (with_players
                      (reg_update sid (set_taskProgress tp) (players s)) s)). }
  assert (reg_get sid (players (saveTaskProgress sid tp s).1)
          = Some (set_taskProgress tp p)) as Hget.
  { rewrite Hps, reg_get_update by done. rewrite decide_True by done.
    by rewrite Hp. }
  split; [by rewrite Hget|].
  unfold requestGameState. rewrite Hget, Htime.
  assert (is_role crewmate (set_taskProgress tp p) = true) as ->
    by by apply is_role_true.
  done.
Qed.

(** The crewmate of the round of two saves again and asks for the state. *)
Lemma saved_progress_is_restored_witness :
  (taskProgress <$>
     reg_get "A" (players (saveTaskProgress "A" saved_progress with_save).1))
    = Some saved_progress ∧
  (requestGameState "A" (saveTaskProgress "A" saved_progress with_save).1).2
    = [ (ToSocket "A",
         game_state_update
           (map roster_of
              (players (saveTaskProgress "A" saved_progress with_save).1))
           (timeRemaining with_save)
           (gameTimer (saveTaskProgress "A" saved_progress with_save).1));
        (ToSocket "A", restore_task_progress saved_progress) ].
Proof.
  apply (saved_progress_is_restored with_save "A"
           (mkPlayer 0 "A" "Ann" (Some crewmate) true (take 3 CREWMATE_TASKS) 0
                     "#ff6b6b" saved_progress None) saved_progress).
  - vm_compute. reflexivity.
  - reflexivity.
Defined.

(** ** Round ends and lobby resets *)

Lemma counts_app out1 out2 :
  game_ended_count (out1 ++ out2)
    = game_ended_count out1 + game_ended_count out2 ∧
  return_to_lobby_count (out1 ++ out2)
    = return_to_lobby_count out1 + return_to_lobby_count out2.
Proof.
  unfold game_ended_count, return_to_lobby_count.
  by rewrite !List.filter_app, !length_app.
Qed.

Lemma checkGameEnd_account s :
  game_ended_count (checkGameEnd s).2 + length (pendingLobbyResets s)
    = length (pendingLobbyResets (checkGameEnd s).1) ∧
  return_to_lobby_count (checkGameEnd s).2 = 0.
Proof.
  unfold checkGameEnd. destruct (decide_winner s) as [[w r]|]; simpl; [|done].
  rewrite length_app. simpl. split; [lia | done].
Qed.

Lemma processVotes_account s :
  game_ended_count (processVotes s).2 + length (pendingLobbyResets s)
    = length (pendingLobbyResets (processVotes s).1) ∧
  return_to_lobby_count (processVotes s).2 = 0.
Proof.
  unfold processVotes. destruct (tally (players s)) as [votes voters].
  destruct (_ && _); [|done].
  destruct (ejectedPlayerId _); [|done].
  destruct (reg_get _ _); [|done].
  match goal with |- context [checkGameEnd ?s1] =>
    pose proof (checkGameEnd_account s1) as Hacc;
    destruct (checkGameEnd s1) as [s2 out2] end.
  exact Hacc.
Qed.

Lemma notify_start_account roster l :
  game_ended_count (flat_map (notify_start roster) l) = 0 ∧
  return_to_lobby_count (flat_map (notify_start roster) l) = 0.
Proof.
  unfold game_ended_count, return_to_lobby_count.
  induction l as [|p l [IH1 IH2]]; simpl; [done|].
  destruct (is_role crewmate p); simpl; done.
Qed.

Lemma startGame_account draws s :
  game_ended_count (startGame draws s).2 = 0 ∧
  return_to_lobby_count (startGame draws s).2 = 0 ∧
  pendingLobbyResets (startGame draws s).1 = pendingLobbyResets s.
Proof.
  destruct (decide (1 ≤ length (players s))) as [Hn|Hn].
  - rewrite startGame_out by done.
    destruct (notify_start_account (players (startGame draws s).1)
                                   (players (startGame draws s).1)) as [-> ->].
    split; [done|]. split; [done|].
    unfold startGame. by rewrite (proj2 (Nat.leb_le _ _) Hn).
  - unfold startGame.
    assert ((1 <=? length (players s)) = false) as ->
      by (apply Nat.leb_gt; lia).
    done.
Qed.

(** Names the account of a destructured call of [checkGameEnd]. *)
Ltac account_checkGameEnd :=
  match goal with |- context [checkGameEnd ?s1] =>
    let Hacc := fresh "Hacc" in
    pose proof (checkGameEnd_account s1) as Hacc;
    destruct (checkGameEnd s1) as [? ?]; simpl in Hacc;
    destruct Hacc
  end.

Lemma handle_account e s :
  game_ended_count (handle e s).2 + length (pendingLobbyResets s)
  = return_to_lobby_count (handle e s).2
    + length (pendingLobbyResets (handle e s).1).
Proof.
  destruct e; simpl.
  - done.
  - destruct (startGame_account draws s) as (-> & -> & ->). done.
  - unfold taskProgressRelay.
    by destruct (reg_get _ _); [destruct (is_role _ _)|].
  - unfold saveTaskProgress.
    destruct (reg_get _ _); [destruct (is_role _ _)|]; try done.
    destruct (3 <=? _)%Z; [|done].
    destruct (checkGameEnd_account
                (with_players
                   (reg_update sid (set_taskProgress tp) (players s)) s))
      as [H1 H2].
    simpl in H1. lia.
  - unfold taskCompleted.
    destruct (reg_get _ _); [destruct (is_role _ _)|]; try done.
    account_checkGameEnd. simpl.
    unfold game_ended_count, return_to_lobby_count in *. simpl. lia.
  - unfold attemptSabotage.
    destruct (reg_get sid _); [|done].
    destruct (reg_get targetPlayerId _); [|done].
    destruct (_ && _); [|done].
    destruct (_ && _); [done|].
    destruct (3 <=? _); [|done].
    account_checkGameEnd. simpl.
    unfold game_ended_count, return_to_lobby_count in *. simpl. lia.
  - unfold triggerSabotage.
    by destruct (reg_get _ _); [destruct (is_role _ _)|].
  - unfold reportBody.
    by destruct (reg_get _ _); [destruct (isAlive _)|].
  - unfold emergencyMeeting.
    by destruct (reg_get _ _); [destruct (isAlive _)|].
  - unfold submitVote.
    destruct (reg_get _ _); [destruct (isAlive _)|]; try done.
    destruct (_ =? _); [|done].
    match goal with |- context [processVotes ?s1] =>
      pose proof (processVotes_account s1) as [H1 H2];
      destruct (processVotes s1) as [s2 out2] end.
    simpl in *. unfold game_ended_count, return_to_lobby_count in *. simpl. lia.
  - unfold chatMessage. by destruct (reg_get _ _).
  - unfold requestGameState. destruct (reg_get _ _) as [p|]; [|done].
    simpl. by destruct (is_role crewmate p).
  - unfold disconnect. destruct (reg_get _ _); [|done]. simpl.
    by destruct (_ =? _).
  - unfold timerTick. destruct (_ <=? _)%Z; [|done].
    account_checkGameEnd. simpl.
    unfold game_ended_count, return_to_lobby_count in *. simpl. lia.
  - unfold meetingTimeout. destruct (0 <? _); [|done].
    destruct (processVotes_account (with_pendingMeetings (pred (pendingMeetings s)) s))
      as [H1 H2].
    simpl in H1. lia.
  - unfold lobbyReset. destruct (pendingLobbyResets s) as [|c rest] eqn:Hpend;
      simpl; rewrite ?Hpend; unfold game_ended_count, return_to_lobby_count;
      simpl; lia.
Qed.

(** X20.  Every [game-ended] broadcast schedules exactly one lobby reset and
    every [return-to-lobby] broadcast consumes one: along any run, the
    number of round ends announced plus the resets pending before equals the
    number of returns to the lobby announced plus the resets still pending. *)
Theorem lobby_resets_match_round_ends s es s' out :
  run s es s' out →
  game_ended_count out + length (pendingLobbyResets s)
  = return_to_lobby_count out + length (pendingLobbyResets s').
Proof.
  induction 1 as [|s e s1 out1 es s2 out2 Hv He _ IH]; [done|].
  pose proof (handle_account e s) as Hstep. rewrite He in Hstep. simpl in Hstep.
  destruct (counts_app out1 out2) as [-> ->]. lia.
Qed.

(** The round of [after_kill] ends and its lobby reset runs. *)
Lemma lobby_resets_match_round_ends_witness :
  game_ended_count (exec next_round after_kill).2
    + length (pendingLobbyResets after_kill)
  = return_to_lobby_count (exec next_round after_kill).2
    + length (pendingLobbyResets in_next_round).
Proof.
  apply (lobby_resets_match_round_ends after_kill next_round in_next_round
           (exec next_round after_kill).2 next_round_run).
Defined.
